(** * das-boot: the ORAS artifact provider (pkg/seeder/artifacts/oras)

    A shallow embedding of [oras_provider.go]: the constructor [Provider],
    the credential callback [creds], the fetch operation [Get] and the
    stream wrapper [orasReadCloser].  Strings are Go byte strings
    ([string]); calls that leave the package (URL parsing, the ORAS client,
    the file system, the logger) are explicit: their outcomes come from an
    environment record, and every call is recorded in a trace. *)

From Stdlib Require Import Bool Arith Lia List String Ascii.
Import ListNotations.

Local Open Scope string_scope.
Local Open Scope list_scope.
Local Open Scope bool_scope.
Local Open Scope nat_scope.

(** ** Go's [path] and [strings] functions used by [Get] *)

Module path.

(** [lazybuf]: the bytes written so far.  The buffer is held last byte
    first, so [out.w] is its length and [out.append] is a cons. *)
Definition lazybuf := list ascii.

Definition w (out : lazybuf) : nat := List.length out.

Definition append (out : lazybuf) (c : ascii) : lazybuf := c :: out.

(** [out.string()]: the written bytes, first byte first. *)
Definition to_string (out : lazybuf) : string :=
  string_of_list_ascii (List.rev out).

(** The [..] case's backtracking:
    [out.w--; for out.w > dotdot && out.index(out.w) != '/' { out.w-- }].
    After a decrement, [out.index(out.w)] is the byte just dropped. *)
Fixpoint backtrack (dotdot : nat) (out : lazybuf) : lazybuf :=
  match out with
  | [] => []
  | c :: out' =>
      if (dotdot <? w out') && negb (Ascii.eqb c "/")
      then backtrack dotdot out'
      else out'
  end.

(** [r+1 == n || path[r+1] == '/'], on the bytes after [path[r]]. *)
Definition ends_element (rest : string) : bool :=
  match rest with
  | EmptyString => true
  | String c _ => Ascii.eqb c "/"
  end.

(** [path[r+1] == '.' && (r+2 == n || path[r+2] == '/')], on the bytes
    after [path[r]]. *)
Definition dot_ends_element (rest : string) : bool :=
  match rest with
  | EmptyString => false
  | String c rest2 => Ascii.eqb c "." && ends_element rest2
  end.

(** "add slash if needed" of the real-path-element case. *)
Definition add_slash (rooted : bool) (out : lazybuf) : lazybuf :=
  if (rooted && negb (w out =? 1)) || (negb rooted && negb (w out =? 0))
  then append out "/" else out.

(** The [..] case once it is known that the buffer cannot backtrack:
    not rooted, so the [..] element is appended and [dotdot] moves. *)
Definition append_dotdot (out : lazybuf) : lazybuf :=
  let out1 := if 0 <? w out then append out "/" else out in
  append (append out1 ".") ".".

(** The main loop of [Clean], [for r < n { switch ... } ], on [path[r:]].
    [dotdot] is the index in the buffer where [..] must stop.  The inner
    [copy] is the loop that copies one real path element. *)
Fixpoint clean_loop (rooted : bool) (p : string) (out : lazybuf)
         (dotdot : nat) {struct p} : lazybuf :=
  match p with
  | EmptyString => out
  | String c rest =>
      if Ascii.eqb c "/" then
        (* empty path element *)
        clean_loop rooted rest out dotdot
      else if Ascii.eqb c "." && ends_element rest then
        (* . element *)
        clean_loop rooted rest out dotdot
      else if Ascii.eqb c "." && dot_ends_element rest then
        (* .. element: remove to last / *)
        match rest with
        | String _ rest2 =>
            if dotdot <? w out then
              (* can backtrack *)
              clean_loop rooted rest2 (backtrack dotdot out) dotdot
            else if negb rooted then
              (* cannot backtrack, but not rooted, so append .. element *)
              clean_loop rooted rest2 (append_dotdot out)
                         (w (append_dotdot out))
            else
              clean_loop rooted rest2 out dotdot
        | EmptyString => out (* not reached: [rest] starts with a dot *)
        end
      else
        (* real path element: add slash if needed, copy element *)
        (fix copy (q : string) (o : lazybuf) {struct q} : lazybuf :=
           match q with
           | EmptyString => o
           | String d q' =>
               if Ascii.eqb d "/"
               then clean_loop rooted q o dotdot
               else copy q' (append o d)
           end) rest (append (add_slash rooted out) c)
  end.

(** The loop that copies one real path element,
    [for ; r < n && path[r] != '/'; r++ { out.append(path[r]) }],
    followed by the rest of the main loop: [copy] of [clean_loop] as a
    function of its own. *)
Fixpoint copy_elem (rooted : bool) (dotdot : nat) (q : string)
         (o : lazybuf) : lazybuf :=
  match q with
  | EmptyString => o
  | String d q' =>
      if Ascii.eqb d "/"
      then clean_loop rooted q o dotdot
      else copy_elem rooted dotdot q' (append o d)
  end.

(** [path.Clean]. *)
Definition Clean (p : string) : string :=
  match p with
  | EmptyString => "."
  | String c rest =>
      let rooted := Ascii.eqb c "/" in
      let out :=
        if rooted
        then clean_loop true rest (append [] "/") 1
        else clean_loop false p [] 0 in
      (* turn empty string into "." *)
      if w out =? 0 then "." else to_string out
  end.

(** The loop of [path.Join] that fills [buf]. *)
Fixpoint join_buf (buf : string) (elem : list string) : string :=
  match elem with
  | [] => buf
  | e :: elem' =>
      if negb (String.length buf =? 0) || negb (String.eqb e "")
      then
        let buf1 := if negb (String.length buf =? 0)
                    then (buf ++ "/")%string else buf in
        join_buf (buf1 ++ e)%string elem'
      else join_buf buf elem'
  end.

(** [path.Join]. *)
Definition Join (elem : list string) : string :=
  let size := List.fold_left (fun n e => n + String.length e) elem 0 in
  if size =? 0 then ""
  else Clean (join_buf "" elem).

(** *** The path as a list of elements

    What [clean_loop] does, element by element: the path is cut at its
    slashes, and every element acts on the buffer once.  An element is
    held last byte first, like the buffer. *)

Fixpoint split_slash (p : string) (cur : list ascii) : list (list ascii) :=
  match p with
  | EmptyString => [cur]
  | String c rest =>
      if Ascii.eqb c "/" then cur :: split_slash rest []
      else split_slash rest (c :: cur)
  end.

Definition is_dot (e : list ascii) : bool :=
  match e with
  | [c] => Ascii.eqb c "."
  | _ => false
  end.

Definition is_dotdot (e : list ascii) : bool :=
  match e with
  | [c1; c2] => Ascii.eqb c1 "." && Ascii.eqb c2 "."
  | _ => false
  end.

(** One element on the state (buffer, [dotdot]). *)
Definition step (rooted : bool) (st : lazybuf * nat) (e : list ascii)
  : lazybuf * nat :=
  let (out, dotdot) := st in
  match e with
  | [] => st
  | _ :: _ =>
      if is_dot e then st
      else if is_dotdot e then
        if dotdot <? w out then (backtrack dotdot out, dotdot)
        else if negb rooted
        then (append_dotdot out, w (append_dotdot out))
        else st
      else (e ++ add_slash rooted out, dotdot)
  end.

Definition run (rooted : bool) (es : list (list ascii))
           (st : lazybuf * nat) : lazybuf :=
  fst (List.fold_left (step rooted) es st).

(** [clean_loop] on [p] is the run over the elements of [p]. *)
Definition loop_is_run (rooted : bool) (p : string) : Prop :=
  forall out dotdot,
    clean_loop rooted p out dotdot =
    run rooted (split_slash p []) (out, dotdot).

(** The buffer is empty or its first byte is a slash. *)
Definition ends_slash (t : lazybuf) : Prop :=
  t = [] \/ exists t', t = t' ++ ["/"%char].

(** The buffer holds a path that starts with a [..] element. *)
Definition dotdot_led (v : lazybuf) : Prop :=
  exists t, v = t ++ ["."%char; "."%char] /\ ends_slash t.

(** The states of the run on [/name] and of the run on [name]: the same
    buffer behind the root, until the run on [name] has to start its
    buffer with a [..] element. *)
Definition sim (sr sv : lazybuf * nat) : Prop :=
  (fst sr = fst sv ++ ["/"%char] /\ snd sr = 1 /\ snd sv = 0)
  \/ (dotdot_led (fst sv) /\ 2 <= snd sv /\ snd sv <= w (fst sv)).

End path.

Module strings.

(** Whether the byte [c] is in [cutset]. *)
Fixpoint contains_byte (cutset : string) (c : ascii) : bool :=
  match cutset with
  | EmptyString => false
  | String d cutset' => Ascii.eqb c d || contains_byte cutset' c
  end.

(** [strings.TrimLeft(s, cutset)], byte by byte (the provider's cutset
    is the single ASCII byte [/]): [s] without its leading bytes that
    are in [cutset]. *)
Fixpoint TrimLeft (s cutset : string) : string :=
  match s with
  | EmptyString => EmptyString
  | String c s' => if contains_byte cutset c then TrimLeft s' cutset else s
  end.

End strings.

(** ** Values that cross the package boundary *)

(** A Go [error], by its message. *)
Definition error := string.

(** A Go result pair [(value, err)]: a value when [err == nil]. *)
Inductive result (A : Type) : Type :=
| Ok (a : A)
| Err (e : error).
Arguments Ok {A} a.
Arguments Err {A} e.

Definition is_err {A : Type} (r : result A) : bool :=
  match r with Ok _ => false | Err _ => true end.

(** [url.URL], the fields the provider reads. *)
Record URL := mkURL { Scheme : string; Host : string; Path : string }.

(** [remote.Registry], by the host it is bound to. *)
Record Registry := mkRegistry { registry_host : string }.

(** [registry.Repository], as handed out by [Registry.Repository]. *)
Record Repository := mkRepository { repo_host : string; repo_name : string }.

(** [auth.Credential]. *)
Record Credential := mkCredential {
  Username : string;
  Password : string;
  RefreshToken : string;
  AccessToken : string
}.

(** [auth.EmptyCredential]. *)
Definition EmptyCredential : Credential := mkCredential "" "" "" "".

(** [v1.Descriptor]: media type, digest and size. *)
Record Descriptor := mkDescriptor {
  MediaType : string;
  Digest : string;
  Size : nat
}.

(** [v1.MediaTypeImageLayer]. *)
Definition MediaTypeImageLayer : string :=
  "application/vnd.oci.image.layer.v1.tar".

(** [file.Store], by the directory it works in. *)
Record FileStore := mkFileStore { store_dir : string }.

(** A stream handed out by [file.Store.Fetch] (an [io.ReadCloser]): the
    content it reads and whether [Close] was already called on it. *)
Record Stream := mkStream { stream_of : Descriptor; closed : bool }.

(** ** The world outside: log, file system and remote calls *)

Inductive Level := DebugLevel | ErrorLevel.

(** What a run does to the outside, in order.  A call is recorded with
    what it was given; [RemoveAll] and [StreamClose] also with the error
    they came back with. *)
Inductive Event :=
| Log (lvl : Level) (msg : string) (fields : list (string * string))
| CallRepository (repoName : string)
| CallMkdirTemp (dir pattern : string)
| CallFileNew (dir : string)
| CallCopy (src : Repository) (srcRef : string) (dst : FileStore)
           (dstRef : string)
| CallSuccessors (store : FileStore) (node : Descriptor)
| CallFetch (store : FileStore) (node : Descriptor)
| CallRemoveAll (dir : string) (err : option error)
| StreamClose (s : Stream) (err : option error).

(** The temporary store directories that exist, one entry for each, and
    the trace so far.  What lies below a directory is not part of the
    world. *)
Record World := mkWorld { dirs : list string; trace : list Event }.

(** The outcome of every call that leaves the package. *)
Record Env := mkEnv {
  (* net/url *)
  url_Parse : string -> result URL;
  (* oras-go: remote.NewRegistry *)
  remote_NewRegistry : string -> result Registry;
  (* oras-go: Registry.Repository, which validates the name *)
  registry_Repository : Registry -> string -> result Repository;
  (* os.MkdirTemp: the directory it creates below [dir] *)
  os_MkdirTemp : list string -> string -> string -> result string;
  (* os.RemoveAll: the error it reports on an existing directory *)
  os_RemoveAll_err : string -> option error;
  (* oras-go: file.New *)
  file_New : string -> result FileStore;
  (* oras-go: oras.Copy, the root descriptor of the copied graph *)
  oras_Copy : Repository -> string -> FileStore -> string -> result Descriptor;
  (* oras-go: content.Successors *)
  content_Successors : FileStore -> Descriptor -> result (list Descriptor);
  (* oras-go: file.Store.Fetch *)
  store_Fetch : FileStore -> Descriptor -> result Stream;
  (* the Close method of a fetched stream *)
  stream_Close_err : Stream -> option error
}.

(** A computation that acts on the world. *)
Definition M (A : Type) : Type := World -> A * World.

Definition ret {A : Type} (a : A) : M A := fun wd => (a, wd).

Definition bind {A B : Type} (m : M A) (k : A -> M B) : M B :=
  fun wd => let (a, wd') := m wd in k a wd'.

Declare Scope go_scope.
Delimit Scope go_scope with go.
Notation "x <- m ;; k" := (bind m (fun x => k))
  (at level 100, m at next level, right associativity) : go_scope.
Notation "m ;; k" := (bind m (fun _ => k))
  (at level 100, right associativity) : go_scope.
Local Open Scope go_scope.

Definition emit (ev : Event) : M unit :=
  fun wd => (tt, mkWorld (dirs wd) (trace wd ++ [ev])).

(** [log.L().Error(msg, fields...)] and [log.L().Debug(msg, fields...)]. *)
Definition log_Error (msg : string) (fields : list (string * string)) : M unit :=
  emit (Log ErrorLevel msg fields).

Definition log_Debug (msg : string) (fields : list (string * string)) : M unit :=
  emit (Log DebugLevel msg fields).

Definition remove_dir (d : string) (ds : list string) : list string :=
  List.filter (fun x => negb (String.eqb x d)) ds.

Definition dir_exists (d : string) (ds : list string) : bool :=
  List.existsb (String.eqb d) ds.

Section Calls.

Variable E : Env.

(** [os.MkdirTemp(dir, pattern)]: on success the new directory exists. *)
Definition MkdirTemp (dir pattern : string) : M (result string) :=
  fun wd =>
    let wd1 := mkWorld (dirs wd) (trace wd ++ [CallMkdirTemp dir pattern]) in
    match os_MkdirTemp E (dirs wd) dir pattern with
    | Ok d => (Ok d, mkWorld (d :: dirs wd1) (trace wd1))
    | Err e => (Err e, wd1)
    end.

(** [os.RemoveAll(dir)]: no error when [dir] does not exist; otherwise
    the tree is removed unless the system reports an error.  Of the tree,
    the world holds the entry [dir] only. *)
Definition RemoveAll (dir : string) : M (option error) :=
  fun wd =>
    let err := if dir_exists dir (dirs wd)
               then os_RemoveAll_err E dir else None in
    let ds := match err with
              | None => remove_dir dir (dirs wd)
              | Some _ => dirs wd
              end in
    (err, mkWorld ds (trace wd ++ [CallRemoveAll dir err])).

Definition Repository_of (reg : Registry) (name : string)
  : M (result Repository) :=
  emit (CallRepository name) ;; ret (registry_Repository E reg name).

Definition file_New_at (dir : string) : M (result FileStore) :=
  emit (CallFileNew dir) ;; ret (file_New E dir).

Definition Copy (src : Repository) (srcRef : string) (dst : FileStore)
           (dstRef : string) : M (result Descriptor) :=
  emit (CallCopy src srcRef dst dstRef) ;;
  ret (oras_Copy E src srcRef dst dstRef).

Definition Successors (store : FileStore) (node : Descriptor)
  : M (result (list Descriptor)) :=
  emit (CallSuccessors store node) ;; ret (content_Successors E store node).

Definition Fetch (store : FileStore) (node : Descriptor)
  : M (result Stream) :=
  emit (CallFetch store node) ;; ret (store_Fetch E store node).

(** [Close] of a fetched stream: it reports its error and is closed. *)
Definition Stream_Close (s : Stream) : M (option error * Stream) :=
  let err := stream_Close_err E s in
  emit (StreamClose s err) ;; ret (err, mkStream (stream_of s) true).

End Calls.

(** ** The provider *)

(** [orasProvider].  [url] and [registry] are set by [Provider] before it
    returns a provider; the context [ctx] carries only the deadline and is
    left out. *)
Record orasProvider := mkProvider {
  serverCAPath : string;
  clientCertPath : string;
  clientKeyPath : string;
  username : string;
  password : string;
  accessToken : string;
  refreshToken : string;
  fileStoreBasePath : string;
  url : URL;
  registry : Registry
}.

(** [ProviderOption], a function that updates the provider under
    construction. *)
Definition ProviderOption := orasProvider -> orasProvider.

Definition set_url (p : orasProvider) (u : URL) : orasProvider :=
  mkProvider (serverCAPath p) (clientCertPath p) (clientKeyPath p)
             (username p) (password p) (accessToken p) (refreshToken p)
             (fileStoreBasePath p) u (registry p).

Definition set_registry (p : orasProvider) (r : Registry) : orasProvider :=
  mkProvider (serverCAPath p) (clientCertPath p) (clientKeyPath p)
             (username p) (password p) (accessToken p) (refreshToken p)
             (fileStoreBasePath p) (url p) r.

(** The closure [creds] of [Provider], which the registry client calls
    with the host it is about to talk to. *)
Definition creds (p : orasProvider) (target : string) : Credential :=
  if negb (String.eqb (username p) "") || negb (String.eqb (password p) "")
     || negb (String.eqb (accessToken p) "")
     || negb (String.eqb (refreshToken p) "")
  then
    if String.eqb target (Host (url p))
    then mkCredential (username p) (password p) (refreshToken p)
                      (accessToken p)
    else EmptyCredential
  else EmptyCredential.

(** [Provider(ctx, registryURL, fileStoreBasePath, options...)]. *)
Definition Provider (E : Env) (registryURL fileStoreBasePath : string)
           (options : list ProviderOption) : result orasProvider :=
  (* apply options *)
  let p0 := mkProvider "" "" "" "" "" "" "" fileStoreBasePath
                       (mkURL "" "" "") (mkRegistry "") in
  let p1 := List.fold_left (fun p opt => opt p) options p0 in
  (* create file store *)
  if String.eqb fileStoreBasePath "" then
    Err "fileStoreBasePath must not be empty"
  else
    (* parse URL *)
    match url_Parse E registryURL with
    | Err e => Err ("parsing registry URL: " ++ e)%string
    | Ok u =>
        let p2 := set_url p1 u in
        if negb (String.eqb (Scheme u) "oci") then
          Err ("registry URL must have OCI scheme, got '"
                 ++ Scheme u ++ "'")%string
        else
          match remote_NewRegistry E (Host u) with
          | Err e => Err ("create ORAS client: " ++ e)%string
          | Ok reg => Ok (set_registry p2 reg)
          end
    end.

(** [orasReadCloser]. *)
Record orasReadCloser := mkOrasReadCloser {
  fileStorePath : string;
  rc : Stream
}.

(** The [io.ReadCloser] values [Get] returns: a stream of the file store
    as it is, or an [*orasReadCloser]. *)
Inductive ReadCloser :=
| FileStream (s : Stream)
| OrasReadCloser (orc : orasReadCloser).

Section Get.

Variable E : Env.

(** The repository name [Get] builds from the artifact name. *)
Definition repoName_of (op : orasProvider) (artifact : string) : string :=
  strings.TrimLeft (path.Join [Path (url op); artifact]) "/".

(** The loop over [nodes] of [Get]'s second branch.  [Some r]: the loop
    left [Get] with [return r]; [None]: it ran to its end. *)
Fixpoint scan_nodes (repoName dir : string) (fileStore : FileStore)
         (nodes : list Descriptor) : M (option (option ReadCloser)) :=
  match nodes with
  | [] => ret None
  | node :: nodes' =>
      if String.eqb (MediaType node) MediaTypeImageLayer then
        (* this is probably the right media type for now *)
        r <- Fetch E fileStore node ;;
        match r with
        | Err e =>
            log_Error "oras: fetch layer content failed"
                      [("repo", repoName); ("error", e)] ;;
            ret (Some None)
        | Ok s => ret (Some (Some (OrasReadCloser (mkOrasReadCloser dir s))))
        end
      else scan_nodes repoName dir fileStore nodes'
  end.

(** The end of [Get], from [if len(nodes) == 1] on: the choice of the
    payload among the successors [nodes] and its fetch. *)
Definition Get_select (repoName dir : string) (fileStore : FileStore)
           (nodes : list Descriptor) : M (option ReadCloser) :=
  if List.length nodes =? 1 then
    (* we would expect just one layer usually *)
    match nodes with
    | node0 :: _ =>
        r <- Fetch E fileStore node0 ;;
        match r with
        | Err e =>
            log_Error "oras: fetch layer content failed"
                      [("repo", repoName); ("error", e)] ;;
            ret None
        | Ok s => ret (Some (FileStream s))
        end
    | [] => ret None (* not reached: there is one node *)
    end
  else
    (* otherwise we are looking through all the nodes *)
    r <- scan_nodes repoName dir fileStore nodes ;;
    match r with
    | Some returned => ret returned
    | None =>
        (* artifact not found *)
        log_Error "oras: no image layers in artifact" [("repo", repoName)] ;;
        ret None
    end.

(** [Get] once the temporary directory [dir] exists, up to its
    [return]. *)
Definition Get_in_dir (repoName dir : string) (src : Repository)
  : M (option ReadCloser) :=
  (* TODO: tag name *)
  let tagName := "latest" in
  r <- file_New_at E dir ;;
  match r with
  | Err e =>
      log_Error "oras: failed to create file store"
                [("repo", repoName); ("error", e)] ;;
      ret None
  | Ok fileStore =>
      r <- Copy E src tagName fileStore tagName ;;
      match r with
      | Err e =>
          log_Error "oras: copying artifact into memory failed"
                    [("repo", repoName); ("error", e)] ;;
          ret None
      | Ok rootDesc =>
          (* fetch all entries for the tag *)
          r <- Successors E fileStore rootDesc ;;
          match r with
          | Err e =>
              log_Error "oras: fetching successors failed"
                        [("repo", repoName); ("error", e)] ;;
              ret None
          | Ok nodes => Get_select repoName dir fileStore nodes
          end
      end
  end.

(** The function [Get] defers once the temporary directory exists: it
    runs when [Get] returns, on the value [rc] that [Get] returns. *)
Definition Get_deferred (dir : string) (rc : option ReadCloser) : M unit :=
  match rc with
  | None =>
      log_Debug "oras: cleaning up temporary file store path"
                [("fileStorePath", dir)] ;;
      RemoveAll E dir ;;
      ret tt
  | Some _ => ret tt
  end.

(** [(op *orasProvider) Get(artifact)]. *)
Definition Get (op : orasProvider) (artifact : string)
  : M (option ReadCloser) :=
  (* build repo name from artifact *)
  let repoName := repoName_of op artifact in
  r <- Repository_of E (registry op) repoName ;;
  match r with
  | Err e =>
      log_Error "oras: getting repository reference failed"
                [("repo", repoName); ("error", e)] ;;
      ret None
  | Ok src =>
      (* downloads the stuff locally *)
      r <- MkdirTemp E (fileStoreBasePath op) "oras-provider-file-store-*" ;;
      match r with
      | Err e =>
          log_Error
            "oras: failed to create temporary directory for file store"
            [("repo", repoName); ("error", e)] ;;
          ret None
      | Ok dir =>
          rc <- Get_in_dir repoName dir src ;;
          Get_deferred dir rc ;;
          ret rc
      end
  end.

(** [(orc *orasReadCloser) Close()]: the error it returns and the handle
    afterwards. *)
Definition orasReadCloser_Close (orc : orasReadCloser)
  : M (option error * orasReadCloser) :=
  r <- Stream_Close E (rc orc) ;;
  let (err, s) := r in
  log_Debug
    "oras: ReadCloser: cleaning up temporary file store path on Close"
    [("fileStorePath", fileStorePath orc)] ;;
  RemoveAll E (fileStorePath orc) ;;
  ret (err, mkOrasReadCloser (fileStorePath orc) s).

(** [Close] called on the [io.ReadCloser] that [Get] returned. *)
Definition Close (h : ReadCloser) : M (option error * ReadCloser) :=
  match h with
  | FileStream s =>
      r <- Stream_Close E s ;;
      let (err, s') := r in
      ret (err, FileStream s')
  | OrasReadCloser orc =>
      r <- orasReadCloser_Close orc ;;
      let (err, orc') := r in
      ret (err, OrasReadCloser orc')
  end.

End Get.

(** ** A concrete environment

    One registry, [oci://registry.local/hh], whose repository [hh/foo]
    holds the successors [nodes] under the tag; the calls answer as the
    libraries do on the inputs used in the examples below. *)

Module Example.

Definition layer : Descriptor :=
  mkDescriptor MediaTypeImageLayer "sha256:1111" 4096.

Definition layer2 : Descriptor :=
  mkDescriptor MediaTypeImageLayer "sha256:2222" 512.

Definition config : Descriptor :=
  mkDescriptor "application/vnd.oci.image.config.v1+json" "sha256:3333" 2.

Definition blob : Descriptor :=
  mkDescriptor "application/octet-stream" "sha256:4444" 77.

Definition manifest : Descriptor :=
  mkDescriptor "application/vnd.oci.image.manifest.v1+json" "sha256:5555" 300.

(** [url.Parse] on the registry URLs of the examples.  In the host of the
    last one, an IPv6 address with a zone, [url.Parse] replaces the
    escaped [%25] by the percent sign. *)
Definition parse (s : string) : result URL :=
  if String.eqb s "oci://registry.local/hh"
  then Ok (mkURL "oci" "registry.local" "/hh")
  else if String.eqb s "oci://registry.local"
  then Ok (mkURL "oci" "registry.local" "")
  else if String.eqb s "https://registry.local/hh"
  then Ok (mkURL "https" "registry.local" "/hh")
  else if String.eqb s "oci://[fe80::1%25eth0]/hh"
  then Ok (mkURL "oci" "[fe80::1%eth0]" "/hh")
  else Err "parse: unexpected URL".

(** [remote.NewRegistry] on the hosts of the examples.  It parses the
    host once more, as the authority of a URL, and rejects it when that
    fails: the percent sign of a zone is no escape there. *)
Definition new_registry (host : string) : result Registry :=
  if strings.contains_byte host "%"
  then Err "invalid reference: invalid registry"
  else Ok (mkRegistry host).

(** [Registry.Repository]: the names of the examples that are no valid
    repository names are the empty one and those that start with a
    dot. *)
Definition repository (reg : Registry) (name : string) : result Repository :=
  match name with
  | EmptyString => Err "invalid reference: invalid repository"
  | String c _ =>
      if Ascii.eqb c "."
      then Err "invalid reference: invalid repository"
      else Ok (mkRepository (registry_host reg) name)
  end.

Definition tmp : string := "/var/lib/seeder/oras-provider-file-store-1".

(** The environment: the tag's successors are [nodes], and removing a
    directory fails when [stuck] is set. *)
Definition env (nodes : list Descriptor) (stuck : bool) : Env :=
  mkEnv parse new_registry repository
        (fun _ _ _ => Ok tmp)
        (fun _ => if stuck then Some "unlinkat: permission denied" else None)
        (fun dir => Ok (mkFileStore dir))
        (fun _ _ _ _ => Ok manifest)
        (fun _ _ => Ok nodes)
        (fun _ node => Ok (mkStream node false))
        (fun s => if closed s then Some "file already closed" else None).

Definition provider : orasProvider :=
  mkProvider "" "" "" "seeder" "secret" "" "" "/var/lib/seeder"
             (mkURL "oci" "registry.local" "/hh")
             (mkRegistry "registry.local").

(** The same for the registry URL [oci://registry.local], which has no
    path. *)
Definition bare_provider : orasProvider :=
  mkProvider "" "" "" "" "" "" "" "/var/lib/seeder"
             (mkURL "oci" "registry.local" "")
             (mkRegistry "registry.local").

Definition world0 : World := mkWorld [] [].

End Example.

(** ** What the properties below speak about *)

(** The value and the world a computation ends with, and the events it
    adds to the trace. *)
Definition result_of {A : Type} (m : M A) (wd : World) : A := fst (m wd).

Definition world_of {A : Type} (m : M A) (wd : World) : World := snd (m wd).

Definition events_of {A : Type} (m : M A) (wd : World) : list Event :=
  List.skipn (List.length (trace wd)) (trace (snd (m wd))).

(** The nodes fetched from the file store, in order. *)
Fixpoint fetches (evs : list Event) : list Descriptor :=
  match evs with
  | [] => []
  | CallFetch _ node :: evs' => node :: fetches evs'
  | _ :: evs' => fetches evs'
  end.

(** The directories [os.RemoveAll] was called on, in order. *)
Fixpoint removals (evs : list Event) : list string :=
  match evs with
  | [] => []
  | CallRemoveAll dir _ :: evs' => dir :: removals evs'
  | _ :: evs' => removals evs'
  end.

(** The remote copies started. *)
Fixpoint copies (evs : list Event) : list string :=
  match evs with
  | [] => []
  | CallCopy src _ _ _ :: evs' => repo_name src :: copies evs'
  | _ :: evs' => copies evs'
  end.

(** The media type test of [Get]'s loop. *)
Definition is_layer (node : Descriptor) : bool :=
  String.eqb (MediaType node) MediaTypeImageLayer.

(** A removal that failed is followed by a log entry. *)
Definition removal_failure_logged (evs : list Event) : Prop :=
  exists pre dir e post lvl msg fields,
    evs = pre ++ CallRemoveAll dir (Some e) :: post
    /\ In (Log lvl msg fields) post.

(** The credential tuple the provider was configured with. *)
Definition configured (p : orasProvider) : Credential :=
  mkCredential (username p) (password p) (refreshToken p) (accessToken p).

(** The events of [Get] up to the successors of the root. *)
Definition events_until_successors (op : orasProvider) (artifact : string)
           (src : Repository) (dir : string) (store : FileStore)
           (root : Descriptor) : list Event :=
  [CallRepository (repoName_of op artifact);
   CallMkdirTemp (fileStoreBasePath op) "oras-provider-file-store-*";
   CallFileNew dir;
   CallCopy src "latest" store "latest";
   CallSuccessors store root].

(** Every call of [Get] before the choice of the payload succeeds: the
    graph of the tag is copied into the store in [dir], and the successors
    of its root are [nodes]. *)
Definition copied (E : Env) (op : orasProvider) (artifact : string)
           (wd : World) (src : Repository) (dir : string)
           (store : FileStore) (root : Descriptor)
           (nodes : list Descriptor) : Prop :=
  registry_Repository E (registry op) (repoName_of op artifact) = Ok src
  /\ os_MkdirTemp E (dirs wd) (fileStoreBasePath op)
                  "oras-provider-file-store-*" = Ok dir
  /\ file_New E dir = Ok store
  /\ oras_Copy E src "latest" store "latest" = Ok root
  /\ content_Successors E store root = Ok nodes.

(** The stream below a handle, and a stream once closed. *)
Definition stream_under (h : ReadCloser) : Stream :=
  match h with
  | FileStream s => s
  | OrasReadCloser orc => rc orc
  end.

Definition close_stream (s : Stream) : Stream := mkStream (stream_of s) true.

(** What [RemoveAll] reports on [dir] when the directories are [ds], and
    the directories afterwards. *)
Definition removal_error (E : Env) (dir : string) (ds : list string)
  : option error :=
  if dir_exists dir ds then os_RemoveAll_err E dir else None.

Definition after_removal (E : Env) (dir : string) (ds : list string)
  : list string :=
  match removal_error E dir ds with
  | None => remove_dir dir ds
  | Some _ => ds
  end.

(** The events of [orasReadCloser.Close]. *)
Definition close_events (E : Env) (orc : orasReadCloser) (ds : list string)
  : list Event :=
  [StreamClose (rc orc) (stream_Close_err E (rc orc));
   Log DebugLevel
       "oras: ReadCloser: cleaning up temporary file store path on Close"
       [("fileStorePath", fileStorePath orc)];
   CallRemoveAll (fileStorePath orc) (removal_error E (fileStorePath orc) ds)].

(** ** Further vocabulary *)

(** The messages logged at error level, in order. *)
Fixpoint error_logs (evs : list Event) : list string :=
  match evs with
  | [] => []
  | Log ErrorLevel msg _ :: evs' => msg :: error_logs evs'
  | _ :: evs' => error_logs evs'
  end.

(** The paths handed to [file.New] and to [os.RemoveAll], in order. *)
Fixpoint store_paths (evs : list Event) : list string :=
  match evs with
  | [] => []
  | CallFileNew dir :: evs' => dir :: store_paths evs'
  | CallRemoveAll dir _ :: evs' => dir :: store_paths evs'
  | _ :: evs' => store_paths evs'
  end.

(** The calls of [os.MkdirTemp], each with its base path and pattern. *)
Fixpoint mkdirs (evs : list Event) : list (string * string) :=
  match evs with
  | [] => []
  | CallMkdirTemp dir pattern :: evs' => (dir, pattern) :: mkdirs evs'
  | _ :: evs' => mkdirs evs'
  end.

(** Every path of [paths] is [dir]. *)
Definition only_in (dir : string) (paths : list string) : Prop :=
  forall d, In d paths -> d = dir.

(** What one run of [Get] may add to the trace once its directory exists:
    no removal, one error message exactly when it returns nothing, at most
    one copy and one fetch, and a handle only over a fetched stream. *)
Definition quiet_outcome (E : Env) (dir : string) (r : option ReadCloser)
           (evs : list Event) : Prop :=
  removals evs = []
  /\ List.length (error_logs evs) = match r with None => 1 | Some _ => 0 end
  /\ List.length (copies evs) <= 1
  /\ List.length (fetches evs) <= 1
  /\ forall h, r = Some h ->
       exists store node s,
         fetches evs = [node]
         /\ store_Fetch E store node = Ok s
         /\ stream_under h = s
         /\ forall orc, h = OrasReadCloser orc -> fileStorePath orc = dir.

(** What the deferred function adds to the trace of [Get]. *)
Definition deferred_events (E : Env) (dir : string) (ds : list string)
           (r : option ReadCloser) : list Event :=
  match r with
  | None =>
      [Log DebugLevel "oras: cleaning up temporary file store path"
           [("fileStorePath", dir)];
       CallRemoveAll dir (removal_error E dir ds)]
  | Some _ => []
  end.

(** The directories when [Get] returns [r], [dir] being its own. *)
Definition dirs_after_Get (E : Env) (dir : string) (ds : list string)
           (r : option ReadCloser) : list string :=
  match r with
  | None => after_removal E dir (dir :: ds)
  | Some _ => dir :: ds
  end.

(** The provider [Provider] starts from, before the options. *)
Definition initial_provider (fileStoreBasePath : string) : orasProvider :=
  mkProvider "" "" "" "" "" "" "" fileStoreBasePath
             (mkURL "" "" "") (mkRegistry "").

(** *** The buffer of a rooted run of [path.Clean] *)

Module pathnames.
Import path.

(** The buffer of a rooted run that holds the elements [els], the last
    one first (each element last byte first, like the buffer). *)
Fixpoint render (els : list (list ascii)) : lazybuf :=
  match els with
  | [] => ["/"%char]
  | [e] => e ++ ["/"%char]
  | e :: els' => e ++ "/"%char :: render els'
  end.

(** A real element, as the buffer holds it: not empty, not [.], not [..],
    and without a slash. *)
Definition real_bytes (e : list ascii) : Prop :=
  e <> [] /\ is_dot e = false /\ is_dotdot e = false /\ ~ In "/"%char e.

(** An element as a string. *)
Definition element_string (e : list ascii) : string :=
  string_of_list_ascii (List.rev e).

End pathnames.

(** A real path element: not empty, not [.], not [..], and without a
    slash. *)
Definition real_element (e : string) : Prop :=
  e <> "" /\ e <> "." /\ e <> ".."
  /\ forall c, In c (list_ascii_of_string e) -> c <> "/"%char.

(** Environments in which one call of [Get] fails, and a provider option
    that sets a user name and a password. *)
Module Failing.

(** [oras.Copy] fails: the registry refuses the request. *)
Definition copy_fails : Env :=
  mkEnv Example.parse Example.new_registry Example.repository
        (fun _ _ _ => Ok Example.tmp)
        (fun _ => None)
        (fun dir => Ok (mkFileStore dir))
        (fun _ _ _ _ => Err "unauthorized")
        (fun _ _ => Ok [])
        (fun _ node => Ok (mkStream node false))
        (fun s => if closed s then Some "file already closed" else None).

(** [os.MkdirTemp] fails. *)
Definition mkdir_fails : Env :=
  mkEnv Example.parse Example.new_registry Example.repository
        (fun _ _ _ => Err "mkdir: no space left on device")
        (fun _ => None)
        (fun dir => Ok (mkFileStore dir))
        (fun _ _ _ _ => Ok Example.manifest)
        (fun _ _ => Ok [Example.layer])
        (fun _ node => Ok (mkStream node false))
        (fun s => if closed s then Some "file already closed" else None).

Definition with_basic_auth (user pass : string) : ProviderOption :=
  fun p =>
    mkProvider (serverCAPath p) (clientCertPath p) (clientKeyPath p)
               user pass (accessToken p) (refreshToken p)
               (fileStoreBasePath p) (url p) (registry p).

(** A world in which the directory of another fetch exists. *)
Definition other : string := "/var/lib/seeder/oras-provider-file-store-0".

Definition world1 : World := mkWorld [other] [].

End Failing.

(** * Proofs *)

(** ** [path.Clean], element by element *)

Module PathFacts.

Import path.

(** [Clean] on the table of Go's own test of [path.Clean]. *)
Lemma Clean_test_table :
  List.map Clean
    [""; "abc"; "abc/def"; "a/b/c"; "."; ".."; "../.."; "../../abc"; "/abc";
     "/"; "abc/"; "abc/def/"; "a/b/c/"; "./"; "../"; "../../"; "/abc/";
     "abc//def//ghi"; "//abc"; "///abc"; "//abc//"; "abc//"; "abc/./def";
     "/./abc/def"; "abc/."; "abc/def/ghi/../jkl"; "abc/def/../ghi/../jkl";
     "abc/def/.."; "abc/def/../.."; "/abc/def/../.."; "abc/def/../../..";
     "/abc/def/../../.."; "abc/def/../../../ghi/jkl/../../../mno";
     "abc/./../def"; "abc//./../def"; "abc/../../././../def"]
  = ["."; "abc"; "abc/def"; "a/b/c"; "."; ".."; "../.."; "../../abc"; "/abc";
     "/"; "abc"; "abc/def"; "a/b/c"; "."; ".."; "../.."; "/abc";
     "abc/def/ghi"; "/abc"; "/abc"; "/abc"; "abc"; "abc/def";
     "/abc/def"; "abc"; "abc/def/jkl"; "abc/jkl";
     "abc"; "."; "/"; "..";
     "/"; "../../mno";
     "def"; "def"; "../../def"].
Proof. reflexivity. Qed.

(** [Join] on the table of Go's own test of [path.Join]. *)
Lemma Join_test_table :
  List.map Join
    [[]; [""]; ["a"]; ["a"; "b"]; ["a"; ""]; [""; "b"]; ["/"; "a"];
     ["/"; ""]; ["a/"; "b"]; ["a/"; ""]; [""; ""]]
  = [""; ""; "a"; "a/b"; "a"; "b"; "/a"; "/"; "a/b"; "a"; ""].
Proof. reflexivity. Qed.

(** *** The loop, one case at a time *)

(** [clean_loop] on a path that is not empty: the cases of the [switch],
    with the copying loop as [copy_elem]. *)
Lemma clean_loop_cons rooted c rest out dotdot :
  clean_loop rooted (String c rest) out dotdot =
  if Ascii.eqb c "/" then clean_loop rooted rest out dotdot
  else if Ascii.eqb c "." && ends_element rest
  then clean_loop rooted rest out dotdot
  else if Ascii.eqb c "." && dot_ends_element rest then
    match rest with
    | String _ rest2 =>
        if dotdot <? w out
        then clean_loop rooted rest2 (backtrack dotdot out) dotdot
        else if negb rooted
        then clean_loop rooted rest2 (append_dotdot out) (w (append_dotdot out))
        else clean_loop rooted rest2 out dotdot
    | EmptyString => out
    end
  else copy_elem rooted dotdot rest (append (add_slash rooted out) c).
Proof.
  cbn [clean_loop].
  destruct (Ascii.eqb c "/"); [reflexivity|].
  destruct (Ascii.eqb c "." && ends_element rest); [reflexivity|].
  destruct (Ascii.eqb c "." && dot_ends_element rest); [reflexivity|].
  generalize (append (add_slash rooted out) c).
  induction rest as [|d q IH]; intro o; [reflexivity|].
  cbn [copy_elem]. destruct (Ascii.eqb d "/"); [reflexivity|].
  apply IH.
Qed.

(** *** The loop is the run over the elements *)

(** The first element of [split_slash q cur] ends with the bytes [cur]
    read before [q]. *)
Lemma split_slash_suffix q : forall cur,
  exists pre es, split_slash q cur = (pre ++ cur) :: es.
Proof.
  induction q as [|d q IH]; intro cur; cbn [split_slash].
  - exists [], []. reflexivity.
  - destruct (Ascii.eqb d "/").
    + exists [], (split_slash q []). reflexivity.
    + destruct (IH (d :: cur)) as (pre & es & H).
      exists (pre ++ [d]), es. rewrite H, <- app_assoc. reflexivity.
Qed.

Lemma split_slash_nonempty q cur : split_slash q cur <> [].
Proof.
  destruct (split_slash_suffix q cur) as (pre & es & H). rewrite H. discriminate.
Qed.

Lemma is_dot_length e : List.length e <> 1 -> is_dot e = false.
Proof. destruct e as [|? [|? ?]]; cbn; congruence. Qed.

Lemma is_dotdot_length e : List.length e <> 2 -> is_dotdot e = false.
Proof. destruct e as [|? [|? [|? ?]]]; cbn; congruence. Qed.

(** The first element is [.] exactly when the loop takes its [.] case, and
    [..] exactly when it takes its [..] case. *)
Lemma head_is_dot c rest e es :
  split_slash rest [c] = e :: es ->
  is_dot e = Ascii.eqb c "." && ends_element rest.
Proof.
  destruct rest as [|d rest]; cbn [split_slash ends_element].
  - intros [= <- _]. cbn. now rewrite andb_true_r.
  - destruct (Ascii.eqb d "/") eqn:Hd.
    + intros [= <- _]. cbn. now rewrite andb_true_r.
    + destruct (split_slash_suffix rest [d; c]) as (pre & es' & H).
      rewrite H. intros [= <- _]. rewrite andb_false_r.
      apply is_dot_length. rewrite length_app. cbn. lia.
Qed.

Lemma head_is_dotdot c rest e es :
  split_slash rest [c] = e :: es ->
  is_dotdot e = Ascii.eqb c "." && dot_ends_element rest.
Proof.
  destruct rest as [|d rest]; cbn [split_slash dot_ends_element].
  - intros [= <- _]. cbn. now rewrite andb_false_r.
  - destruct (Ascii.eqb d "/") eqn:Hd.
    + intros [= <- _]. cbn.
      apply Ascii.eqb_eq in Hd. subst d. cbn. now rewrite andb_false_r.
    + destruct rest as [|d2 rest]; cbn [split_slash ends_element].
      * intros [= <- _]. cbn. rewrite andb_true_r. apply andb_comm.
      * destruct (Ascii.eqb d2 "/") eqn:Hd2.
        -- intros [= <- _]. cbn. rewrite andb_true_r. apply andb_comm.
        -- destruct (split_slash_suffix rest [d2; d; c]) as (pre & es' & H).
           rewrite H. intros [= <- _]. rewrite !andb_false_r.
           apply is_dotdot_length. rewrite length_app. cbn. lia.
Qed.

Lemma run_cons rooted e es st :
  run rooted (e :: es) st = run rooted es (step rooted st e).
Proof. reflexivity. Qed.

Lemma run_app rooted es1 es2 st :
  run rooted (es1 ++ es2) st =
  run rooted es2 (List.fold_left (step rooted) es1 st).
Proof. unfold run. now rewrite fold_left_app. Qed.

Lemma step_nil rooted st : step rooted st [] = st.
Proof. now destruct st. Qed.

(** After a whole element, the rest of the path runs like its elements. *)
Lemma split_slash_ends rest cur :
  ends_element rest = true ->
  exists es, split_slash rest cur = cur :: es /\
             forall rooted st,
               run rooted (split_slash rest []) st = run rooted es st.
Proof.
  destruct rest as [|d rest]; cbn [ends_element split_slash].
  - intros _. exists []. split; [reflexivity|].
    intros. rewrite run_cons, step_nil. reflexivity.
  - intros ->. exists (split_slash rest []). split; [reflexivity|].
    intros. rewrite run_cons, step_nil. reflexivity.
Qed.

Section Elements.

Variable rooted : bool.

(** The copying loop ends the element it is in, then the run goes on. *)
Lemma copy_elem_run n :
  (forall p, String.length p <= n -> loop_is_run rooted p) ->
  forall q, String.length q <= n ->
  forall cur base dotdot e es,
    split_slash q cur = e :: es ->
    copy_elem rooted dotdot q (cur ++ base) =
    run rooted es (e ++ base, dotdot).
Proof.
  intros Hloop q.
  induction q as [|d q IH]; intros Hlen cur base dotdot e es;
    cbn [split_slash copy_elem].
  - intros [= <- <-]. reflexivity.
  - cbn [String.length] in Hlen.
    destruct (Ascii.eqb d "/") eqn:Hd.
    + intros [= <- <-]. rewrite clean_loop_cons, Hd.
      apply Hloop. lia.
    + intros H. apply (IH ltac:(lia) (d :: cur) base dotdot e es H).
Qed.

Lemma clean_loop_run_le n :
  forall p, String.length p <= n -> loop_is_run rooted p.
Proof.
  induction n as [|n IHn]; intros p Hlen.
  - destruct p; [|cbn in Hlen; lia].
    intros out dotdot. reflexivity.
  - destruct p as [|c rest]; [intros out dotdot; reflexivity|].
    cbn [String.length] in Hlen.
    assert (Hrest : String.length rest <= n) by lia.
    intros out dotdot. rewrite clean_loop_cons. cbn [split_slash].
    destruct (Ascii.eqb c "/") eqn:Hc.
    { (* empty path element *)
      rewrite run_cons, step_nil. apply IHn, Hrest. }
    destruct (Ascii.eqb c "." && ends_element rest) eqn:Hdot.
    { (* . element *)
      apply andb_true_iff in Hdot as [Hc' Hends].
      apply Ascii.eqb_eq in Hc'. subst c.
      destruct (split_slash_ends rest ["."%char] Hends) as (es & H1 & H2).
      rewrite H1, run_cons, (IHn rest Hrest). apply H2. }
    destruct (Ascii.eqb c "." && dot_ends_element rest) eqn:Hdd.
    { (* .. element *)
      apply andb_true_iff in Hdd as [Hc' Hdd].
      apply Ascii.eqb_eq in Hc'. subst c.
      destruct rest as [|c1 rest2]; [discriminate|].
      cbn [dot_ends_element] in Hdd.
      apply andb_true_iff in Hdd as [Hc1 Hends].
      apply Ascii.eqb_eq in Hc1. subst c1.
      cbn [String.length] in Hrest.
      assert (Hrest2 : String.length rest2 <= n) by lia.
      change (split_slash (String "." rest2) ["."%char])
        with (split_slash rest2 ["."%char; "."%char]).
      destruct (split_slash_ends rest2 ["."%char; "."%char] Hends)
        as (es & H1 & H2).
      rewrite H1, run_cons.
      change (step rooted (out, dotdot) ["."%char; "."%char])
        with (if dotdot <? w out then (backtrack dotdot out, dotdot)
              else if negb rooted
                   then (append_dotdot out, w (append_dotdot out))
                   else (out, dotdot)).
      destruct (dotdot <? w out); [|destruct (negb rooted)];
        rewrite (IHn rest2 Hrest2); apply H2. }
    (* real path element *)
    destruct (split_slash_suffix rest [c]) as (pre & es & Hsplit).
    rewrite Hsplit, run_cons.
    assert (Hstep : step rooted (out, dotdot) (pre ++ [c]) =
                    ((pre ++ [c]) ++ add_slash rooted out, dotdot)).
    { pose proof (head_is_dot c rest _ _ Hsplit) as E1.
      pose proof (head_is_dotdot c rest _ _ Hsplit) as E2.
      rewrite Hdot in E1. rewrite Hdd in E2.
      unfold step. rewrite E1, E2.
      destruct (pre ++ [c]) eqn:He; [destruct pre; discriminate|].
      reflexivity. }
    rewrite Hstep.
    apply (copy_elem_run n IHn rest Hrest [c] (add_slash rooted out)
                         dotdot _ _ Hsplit).
Qed.

(** [clean_loop] is the run over the elements of the path. *)
Lemma clean_loop_run p out dotdot :
  clean_loop rooted p out dotdot =
  run rooted (split_slash p []) (out, dotdot).
Proof. exact (clean_loop_run_le (String.length p) p (le_n _) out dotdot). Qed.

End Elements.

(** *** A doubled slash *)

Lemma split_slash_app_slash p : forall cur y,
  split_slash (p ++ String "/" y) cur = split_slash p cur ++ split_slash y [].
Proof.
  induction p as [|c p IH]; intros cur y; cbn [String.append split_slash].
  - reflexivity.
  - destruct (Ascii.eqb c "/"); [cbn; f_equal|]; apply IH.
Qed.

Lemma clean_loop_double_slash rooted p x out dotdot :
  clean_loop rooted (p ++ String "/" (String "/" x)) out dotdot =
  clean_loop rooted (p ++ String "/" x) out dotdot.
Proof.
  rewrite !clean_loop_run, !split_slash_app_slash, !run_app.
  cbn [split_slash Ascii.eqb Bool.eqb]. rewrite run_cons, step_nil. reflexivity.
Qed.

(** [Clean] does not see a doubled slash. *)
Lemma Clean_double_slash p x :
  Clean (p ++ String "/" (String "/" x)) = Clean (p ++ String "/" x).
Proof.
  destruct p as [|c p]; cbn [String.append]; unfold Clean.
  - cbn [Ascii.eqb Bool.eqb]. cbv zeta.
    rewrite clean_loop_cons. reflexivity.
  - cbv zeta. destruct (Ascii.eqb c "/").
    + rewrite clean_loop_double_slash. reflexivity.
    + change (String c (p ++ String "/" (String "/" x)))
        with (String c p ++ String "/" (String "/" x))%string.
      rewrite clean_loop_double_slash. reflexivity.
Qed.

(** *** The run on [/name] and the run on [name] *)

Lemma ends_slash_cons c t : ends_slash t -> ends_slash (c :: t ++ ["/"%char]).
Proof. intros _. right. exists (c :: t). reflexivity. Qed.

Lemma ends_slash_app e t : ends_slash t -> ends_slash (e ++ "/"%char :: t).
Proof.
  intros [-> | (t' & ->)]; right.
  - exists e. reflexivity.
  - exists (e ++ "/"%char :: t'). rewrite <- app_assoc. reflexivity.
Qed.

Lemma dotdot_led_push e v :
  dotdot_led v -> dotdot_led (e ++ "/"%char :: v).
Proof.
  intros (t & -> & Ht). exists (e ++ "/"%char :: t). split.
  - rewrite <- app_assoc. reflexivity.
  - apply ends_slash_app, Ht.
Qed.

Lemma dotdot_led_w v : dotdot_led v -> 2 <= w v.
Proof. intros (t & -> & _). unfold w. rewrite length_app. cbn. lia. Qed.

Lemma dotdot_led_tail c v : dotdot_led (c :: v) -> 2 <= w v -> dotdot_led v.
Proof.
  intros (t & E & Ht) Hw. destruct t as [|c' t].
  - injection E as _ ->. cbn in Hw. lia.
  - injection E as _ ->. exists t. split; [reflexivity|].
    destruct Ht as [Ht | (t' & Ht)]; [discriminate|].
    destruct t' as [|c'' t'].
    + injection Ht as _ ->. now left.
    + injection Ht as _ ->. right. now exists t'.
Qed.

(** Backtracking stops at [dotdot], above the leading [..] element. *)
Lemma backtrack_dotdot_led dotdot : forall v,
  dotdot_led v -> 2 <= dotdot -> dotdot < w v ->
  dotdot_led (backtrack dotdot v) /\ dotdot <= w (backtrack dotdot v).
Proof.
  induction v as [|c v IH]; intros Hled Hdd Hw; [cbn in Hw; lia|].
  cbn [backtrack]. cbn [w List.length] in Hw.
  assert (Hv : dotdot_led v) by (apply (dotdot_led_tail c); [assumption|unfold w; lia]).
  destruct (dotdot <? w v) eqn:Hlt; cbn [andb].
  - apply Nat.ltb_lt in Hlt. destruct (negb (Ascii.eqb c "/")).
    + apply IH; assumption.
    + split; [assumption|lia].
  - split; [assumption|unfold w; lia].
Qed.

(** Backtracking behind the root is backtracking without the root. *)
Lemma backtrack_rooted : forall v,
  v <> [] -> backtrack 1 (v ++ ["/"%char]) = backtrack 0 v ++ ["/"%char].
Proof.
  induction v as [|c v IH]; intros Hne; [congruence|].
  cbn [backtrack List.app]. unfold w at 1 2. rewrite length_app. cbn [List.length].
  replace (1 <? List.length v + 1) with (0 <? List.length v)
    by (rewrite Nat.add_1_r; reflexivity).
  destruct (0 <? List.length v) eqn:Hlt; cbn [andb]; [|reflexivity].
  destruct (negb (Ascii.eqb c "/")); [|reflexivity].
  apply IH. intros ->. discriminate.
Qed.

(** Once the buffer starts with [..], it does so for the rest of the run. *)
Lemma step_dotdot_led sv e :
  dotdot_led (fst sv) -> (2 <= snd sv /\ snd sv <= w (fst sv)) ->
  dotdot_led (fst (step false sv e))
  /\ (2 <= snd (step false sv e) /\ snd (step false sv e) <= w (fst (step false sv e))).
Proof.
  destruct sv as [v dd]. cbn [fst snd]. intros Hled Hdd.
  unfold step. destruct e as [|c e]; [now split|].
  destruct (is_dot (c :: e)); [now split|].
  destruct (is_dotdot (c :: e)).
  - destruct (dd <? w v) eqn:Hlt; cbn [negb fst snd].
    + apply Nat.ltb_lt in Hlt.
      destruct (backtrack_dotdot_led dd v Hled) as [H1 H2]; [lia|lia|].
      split; [assumption|lia].
    + unfold append_dotdot.
      assert (H0 : (0 <? w v) = true) by (apply Nat.ltb_lt; lia).
      rewrite H0. unfold append. split.
      * apply (dotdot_led_push ["."%char; "."%char] v Hled).
      * cbn [w List.length]. unfold w in Hdd. lia.
  - cbn [fst snd]. unfold add_slash. cbn [negb andb orb].
    assert (H0 : (w v =? 0) = false) by (apply Nat.eqb_neq; lia).
    rewrite H0. cbn [negb]. unfold append. split.
    + apply (dotdot_led_push (c :: e) v Hled).
    + unfold w in *. rewrite length_app. cbn [List.length]. lia.
Qed.

(** One element keeps the two runs together. *)
Lemma step_sim sr sv e :
  sim sr sv -> sim (step true sr e) (step false sv e).
Proof.
  intros [(Hr & Hdr & Hdv) | (Hled & Hdd)].
  2:{ right. apply step_dotdot_led; assumption. }
  destruct sr as [r ddr], sv as [v ddv]. cbn [fst snd] in *. subst r ddr ddv.
  unfold step. destruct e as [|c e]; [left; now repeat split|].
  destruct (is_dot (c :: e)); [left; now repeat split|].
  destruct (is_dotdot (c :: e)).
  - unfold w at 1. rewrite length_app. cbn [List.length negb].
    replace (1 <? List.length v + 1) with (0 <? w v)
      by (unfold w; rewrite Nat.add_1_r; reflexivity).
    destruct (0 <? w v) eqn:Hlt.
    + left. cbn [fst snd]. repeat split.
      apply backtrack_rooted. intros ->. discriminate.
    + right. cbn [fst snd].
      assert (v = []) as -> by (destruct v; [reflexivity|discriminate]).
      cbn. split; [|lia]. exists []. split; [reflexivity|now left].
  - left. cbn [fst snd]. repeat split.
    unfold add_slash. cbn [negb andb orb]. unfold w. rewrite length_app.
    cbn [List.length].
    replace (List.length v + 1 =? 1) with (List.length v =? 0)
      by (rewrite Nat.add_1_r; reflexivity).
    rewrite orb_false_r.
    destruct (negb (List.length v =? 0)); unfold append;
      rewrite <- app_assoc; reflexivity.
Qed.

Lemma fold_sim es : forall sr sv,
  sim sr sv ->
  sim (List.fold_left (step true) es sr) (List.fold_left (step false) es sv).
Proof.
  induction es as [|e es IH]; intros sr sv H; [exact H|].
  cbn [List.fold_left]. apply IH, step_sim, H.
Qed.

(** The run on [/name] ends with the buffer of the run on [name] behind
    the root, unless the latter starts with a [..] element. *)
Lemma clean_loop_rooted_unrooted (name : string) :
  clean_loop true name ["/"%char] 1 = clean_loop false name [] 0 ++ ["/"%char]
  \/ dotdot_led (clean_loop false name [] 0).
Proof.
  rewrite !clean_loop_run. unfold run.
  destruct (fold_sim (split_slash name []) (["/"%char], 1) ([], 0))
    as [(H & _) | (H & _)].
  - left. now repeat split.
  - left. exact H.
  - right. exact H.
Qed.

Lemma to_string_root v :
  to_string (v ++ ["/"%char]) = String "/" (to_string v).
Proof. unfold to_string. rewrite rev_app_distr. reflexivity. Qed.

Lemma to_string_dotdot_led v :
  dotdot_led v ->
  to_string v = ".." \/ String.prefix "../" (to_string v) = true.
Proof.
  intros (t & -> & [-> | (t' & ->)]); unfold to_string.
  - now left.
  - right. rewrite !rev_app_distr. cbn [List.rev List.app string_of_list_ascii].
    destruct (string_of_list_ascii (rev t')); reflexivity.
Qed.

Lemma TrimLeft_slash_cons s :
  strings.TrimLeft (String "/" s) "/" = strings.TrimLeft s "/".
Proof. reflexivity. Qed.

(** What [TrimLeft] leaves does not start with a slash. *)
Lemma TrimLeft_no_leading_slash s :
  String.prefix "/" (strings.TrimLeft s "/") = false.
Proof.
  induction s as [|c s IH]; [reflexivity|].
  cbn [strings.TrimLeft strings.contains_byte]. rewrite orb_false_r.
  destruct (Ascii.eqb c "/") eqn:Hc; [exact IH|].
  cbn [String.prefix]. destruct (ascii_dec "/" c) as [<-|_]; [discriminate|reflexivity].
Qed.

Lemma append_slash_assoc (s name : string) :
  ((s ++ "/") ++ name)%string = (s ++ String "/" name)%string.
Proof. induction s as [|c s IH]; cbn; [reflexivity|now rewrite IH]. Qed.

(** [path.Join] of a prefix and a name. *)
Lemma Join_prefix_name prefix name :
  Join [prefix; name] =
  match prefix, name with
  | EmptyString, EmptyString => ""
  | EmptyString, _ => Clean name
  | _, _ => Clean (prefix ++ String "/" name)
  end.
Proof.
  unfold Join. cbn [List.fold_left join_buf].
  destruct prefix as [|c prefix].
  - destruct name as [|d name]; reflexivity.
  - cbn [String.length Nat.add Nat.eqb negb orb String.append].
    rewrite (append_slash_assoc prefix name). reflexivity.
Qed.

(** [Clean] on [/name] and on [name], up to the leading slash. *)
Lemma Clean_rooted_name name :
  name <> "" -> path.Clean name <> "." -> path.Clean name <> ".." ->
  String.prefix "../" (path.Clean name) = false ->
  strings.TrimLeft (path.Clean (String "/" name)) "/" =
  strings.TrimLeft (path.Clean name) "/".
Proof.
  intros Hne Hdot Hdd Hpre.
  destruct name as [|c name]; [congruence|].
  destruct (Ascii.eqb c "/") eqn:Hc.
  { apply Ascii.eqb_eq in Hc. subst c.
    exact (f_equal (fun s => strings.TrimLeft s "/")
                   (Clean_double_slash "" name)). }
  unfold Clean, append in *. cbn [Ascii.eqb Bool.eqb] in *. cbv zeta in *.
  rewrite Hc in *.
  destruct (clean_loop_rooted_unrooted (String c name)) as [H | H].
  - rewrite H. unfold w at 1. rewrite length_app, Nat.add_1_r. cbn [Nat.eqb].
    rewrite to_string_root, TrimLeft_slash_cons.
    destruct (w (clean_loop false (String c name) [] 0) =? 0); [congruence|].
    reflexivity.
  - pose proof (dotdot_led_w _ H) as Hw.
    destruct (w (clean_loop false (String c name) [] 0) =? 0) eqn:E.
    { apply Nat.eqb_eq in E. lia. }
    destruct (to_string_dotdot_led _ H); congruence.
Qed.

End PathFacts.

(** ** The repository name *)

(** With a path prefix, a leading separator of the artifact name is
    dropped by [path.Join]. *)
Lemma repoName_of_leading_slash op artifact :
  Path (url op) <> "" ->
  repoName_of op (String "/" artifact) = repoName_of op artifact.
Proof.
  intros Hp. unfold repoName_of. rewrite !PathFacts.Join_prefix_name.
  destruct (Path (url op)) as [|c prefix]; [congruence|].
  now rewrite PathFacts.Clean_double_slash.
Qed.

(** Without a path prefix, it is dropped as long as the cleaned name does
    not start with a dot element. *)
Lemma repoName_of_leading_slash_bare op artifact :
  Path (url op) = "" ->
  path.Clean artifact <> "." -> path.Clean artifact <> ".." ->
  String.prefix "../" (path.Clean artifact) = false ->
  repoName_of op (String "/" artifact) = repoName_of op artifact.
Proof.
  intros Hp H1 H2 H3. unfold repoName_of. rewrite !PathFacts.Join_prefix_name, Hp.
  destruct artifact as [|c artifact]; [now contradiction H1|].
  apply PathFacts.Clean_rooted_name; [discriminate|assumption..].
Qed.

Lemma repoName_of_foo op : repoName_of op "/foo" = repoName_of op "foo".
Proof.
  destruct (string_dec (Path (url op)) "") as [Hp|Hp].
  - unfold repoName_of. rewrite Hp. reflexivity.
  - apply repoName_of_leading_slash, Hp.
Qed.

(** [Get] reads the artifact name through the repository name only. *)
Lemma Get_repoName E op a1 a2 wd :
  repoName_of op a1 = repoName_of op a2 -> Get E op a1 wd = Get E op a2 wd.
Proof. intros H. unfold Get. rewrite H. reflexivity. Qed.

(** C7 (amended): the repository name [Get] computes never begins with a
    path separator.  An artifact name with a leading separator yields the
    same repository name as the name without it whenever the registry URL
    has a path prefix, and, when it has none, whenever the cleaned name is
    neither [.] nor [..] nor starts with [../].  In particular [Get("/foo")]
    and [Get("foo")] name the same repository and are the same call. *)
Theorem repoName_of_normalized E op artifact wd :
  String.prefix "/" (repoName_of op artifact) = false
  /\ (Path (url op) <> "" ->
      repoName_of op (String "/" artifact) = repoName_of op artifact)
  /\ (Path (url op) = "" ->
      path.Clean artifact <> "." -> path.Clean artifact <> ".." ->
      String.prefix "../" (path.Clean artifact) = false ->
      repoName_of op (String "/" artifact) = repoName_of op artifact)
  /\ repoName_of op "/foo" = repoName_of op "foo"
  /\ Get E op "/foo" wd = Get E op "foo" wd.
Proof.
  repeat split.
  - apply PathFacts.TrimLeft_no_leading_slash.
  - apply repoName_of_leading_slash.
  - apply repoName_of_leading_slash_bare.
  - apply repoName_of_foo.
  - apply Get_repoName, repoName_of_foo.
Qed.

(** C7 (counterexample): for a registry URL without a path, the artifact
    names [/../other] and [../other] give the repository names [other] and
    [../other]. *)
Lemma repoName_of_leading_slash_differs :
  repoName_of Example.bare_provider "/../other" = "other"
  /\ repoName_of Example.bare_provider "../other" = "../other"
  /\ ~ (forall op artifact,
          repoName_of op (String "/" artifact) = repoName_of op artifact).
Proof.
  split; [reflexivity|]. split; [reflexivity|].
  intros H. specialize (H Example.bare_provider "../other"). discriminate H.
Qed.

(** C7 (witness): both cases at concrete names. *)
Lemma repoName_of_normalized_witness :
  repoName_of Example.provider "//a/./b/../foo" = "hh/a/foo"
  /\ repoName_of Example.provider "/a/./b/../foo" = "hh/a/foo"
  /\ repoName_of Example.bare_provider "/a/../foo" = "foo"
  /\ repoName_of Example.bare_provider "a/../foo" = "foo".
Proof.
  destruct (repoName_of_normalized (Example.env [] false) Example.provider
              "/a/./b/../foo" Example.world0) as (_ & H2 & _).
  destruct (repoName_of_normalized (Example.env [] false) Example.bare_provider
              "a/../foo" Example.world0) as (_ & _ & H3 & _).
  split; [|split; [reflexivity|split; [|reflexivity]]].
  - rewrite H2; [reflexivity|discriminate].
  - rewrite H3; [reflexivity|reflexivity|discriminate..|reflexivity].
Defined.

(** C10: the repository name is not kept below the path prefix of the
    registry URL.  For the prefix [/hh], the artifact name [../other] gives
    the repository name [other], which is not under [hh/], and [Get] asks
    the registry for that repository. *)
Theorem repoName_of_escapes_prefix :
  repoName_of Example.provider "../other" = "other"
  /\ Path (url Example.provider) = "/hh"
  /\ String.prefix "hh/" (repoName_of Example.provider "../other") = false
  /\ String.prefix "hh/" (repoName_of Example.provider "foo") = true
  /\ result_of (Repository_of (Example.env [] false)
                  (registry Example.provider)
                  (repoName_of Example.provider "../other")) Example.world0
     = Ok (mkRepository "registry.local" "other").
Proof. repeat split. Qed.

(** ** Construction *)

(** C8: the credential callback returns the configured credentials when
    the target is the host of the registry URL, and the empty credential
    for every other target. *)
Theorem creds_only_for_registry_host p target :
  creds p target =
    (if String.eqb target (Host (url p)) then configured p
     else EmptyCredential)
  /\ (target <> Host (url p) -> creds p target = EmptyCredential)
  /\ (target = Host (url p) -> creds p target = configured p).
Proof.
  assert (H : creds p target =
              if String.eqb target (Host (url p)) then configured p
              else EmptyCredential).
  { unfold creds, configured.
    destruct (String.eqb target (Host (url p))).
    - destruct (String.eqb_spec (username p) ""),
               (String.eqb_spec (password p) ""),
               (String.eqb_spec (accessToken p) ""),
               (String.eqb_spec (refreshToken p) ""); cbn; try reflexivity.
      unfold EmptyCredential. congruence.
    - now destruct (_ || _). }
  split; [exact H|]. split; intros Ht; rewrite H.
  - apply String.eqb_neq in Ht. now rewrite Ht.
  - apply String.eqb_eq in Ht. now rewrite Ht.
Qed.

(** C8 (witness): the registry host and another host. *)
Lemma creds_only_for_registry_host_witness :
  creds Example.provider "registry.local"
  = mkCredential "seeder" "secret" "" ""
  /\ creds Example.provider "evil.example" = EmptyCredential.
Proof.
  destruct (creds_only_for_registry_host Example.provider "registry.local")
    as (_ & _ & H1).
  destruct (creds_only_for_registry_host Example.provider "evil.example")
    as (_ & H2 & _).
  split; [rewrite H1; reflexivity | apply H2; discriminate].
Defined.

(** The provider that [Provider] returns holds the parsed registry URL. *)
Lemma Provider_url E registryURL base options p :
  Provider E registryURL base options = Ok p ->
  url_Parse E registryURL = Ok (url p).
Proof.
  unfold Provider. destruct (String.eqb base ""); [discriminate|].
  destruct (url_Parse E registryURL) as [u|e]; [|discriminate].
  destruct (negb _); [discriminate|].
  destruct (remote_NewRegistry E (Host u)); [|discriminate].
  intros [= <-]. reflexivity.
Qed.

(** C4 (amended): [Provider] returns an error, and no provider, exactly
    when the base path is empty, the registry URL does not parse, its scheme
    is not [oci], or no registry client can be made for its host. *)
Theorem Provider_error_iff E registryURL base options :
  is_err (Provider E registryURL base options) = true <->
  base = ""
  \/ is_err (url_Parse E registryURL) = true
  \/ (exists u, url_Parse E registryURL = Ok u
                /\ (Scheme u <> "oci"
                    \/ is_err (remote_NewRegistry E (Host u)) = true)).
Proof.
  unfold Provider.
  destruct (String.eqb_spec base "") as [Hb|Hb].
  { split; [now left | reflexivity]. }
  destruct (url_Parse E registryURL) as [u|e] eqn:Hu.
  2:{ split; [right; now left | reflexivity]. }
  destruct (String.eqb_spec (Scheme u) "oci") as [Hs|Hs]; cbn [negb].
  2:{ split; [|reflexivity]. intros _. right. right. exists u. split; [reflexivity|now left]. }
  destruct (remote_NewRegistry E (Host u)) as [reg|e] eqn:Hr.
  - split; [discriminate|].
    intros [H | [H | (u' & [= <-] & [H | H])]]; try congruence.
    + discriminate H.
    + rewrite Hr in H. discriminate H.
  - split; [|reflexivity]. intros _. right. right. exists u.
    split; [reflexivity|]. right. now rewrite Hr.
Qed.

(** C4 (counterexample): the registry URL [oci://[fe80::1%25eth0]/hh]
    parses and has the scheme [oci], the base path is not empty, and
    [Provider] returns an error: no registry client is made for the host
    [[fe80::1%eth0]]. *)
Lemma Provider_error_without_the_three_causes :
  let E := Example.env [] false in
  let registryURL := "oci://[fe80::1%25eth0]/hh" in
  is_err (Provider E registryURL "/var/lib/seeder" []) = true
  /\ url_Parse E registryURL = Ok (mkURL "oci" "[fe80::1%eth0]" "/hh")
  /\ ~ (is_err (Provider E registryURL "/var/lib/seeder" []) = true <->
        "/var/lib/seeder" = ""
        \/ is_err (url_Parse E registryURL) = true
        \/ (exists u, url_Parse E registryURL = Ok u /\ Scheme u <> "oci")).
Proof.
  cbv zeta. split; [reflexivity|]. split; [reflexivity|].
  intros [H _]. destruct (H eq_refl) as [H1 | [H1 | (u & [= <-] & H1)]].
  - discriminate H1.
  - discriminate H1.
  - now apply H1.
Qed.

(** ** Get *)

Local Open Scope go_scope.

Lemma skipn_trace {A} (l evs : list A) :
  List.skipn (List.length l) (l ++ evs) = evs.
Proof. induction l; [reflexivity|assumption]. Qed.

Lemma fetches_app evs1 evs2 :
  fetches (evs1 ++ evs2) = fetches evs1 ++ fetches evs2.
Proof.
  induction evs1 as [|ev evs1 IH]; [reflexivity|].
  destruct ev; cbn; rewrite ?IH; reflexivity.
Qed.

Section GetFacts.

Variable E : Env.

(** C9: when the registry client rejects the repository name built from
    the artifact name, [Get] logs the rejection and returns nothing; no
    directory is created, nothing is copied and nothing is fetched. *)
Theorem Get_rejects_malformed_name op artifact wd e :
  registry_Repository E (registry op) (repoName_of op artifact) = Err e ->
  Get E op artifact wd =
  (None,
   mkWorld (dirs wd)
           (trace wd ++
              [CallRepository (repoName_of op artifact);
               Log ErrorLevel "oras: getting repository reference failed"
                   [("repo", repoName_of op artifact); ("error", e)]]))
  /\ copies (events_of (Get E op artifact) wd) = []
  /\ fetches (events_of (Get E op artifact) wd) = [].
Proof.
  intros H.
  assert (HG : Get E op artifact wd =
  (None,
   mkWorld (dirs wd)
           (trace wd ++
              [CallRepository (repoName_of op artifact);
               Log ErrorLevel "oras: getting repository reference failed"
                   [("repo", repoName_of op artifact); ("error", e)]]))).
  { unfold Get, Repository_of, log_Error, bind, emit, ret. rewrite H.
    cbn [dirs trace]. rewrite <- app_assoc. reflexivity. }
  split; [exact HG|].
  unfold events_of. rewrite HG. cbn [snd trace]. rewrite skipn_trace.
  split; reflexivity.
Qed.

(** [Get] up to the successors of the root, when every call succeeds. *)
Lemma Get_copied op artifact wd src dir store root nodes :
  copied E op artifact wd src dir store root nodes ->
  Get E op artifact wd =
  (rc <- Get_select E (repoName_of op artifact) dir store nodes ;;
   Get_deferred E dir rc ;;
   ret rc)
    (mkWorld (dir :: dirs wd)
             (trace wd
                ++ events_until_successors op artifact src dir store root)).
Proof.
  intros (H1 & H2 & H3 & H4 & H5).
  unfold Get, Get_in_dir, Repository_of, MkdirTemp, file_New_at, Copy,
    Successors, bind, emit, ret. cbn [dirs trace].
  rewrite H1. cbn [dirs trace]. rewrite H2. cbn [dirs trace].
  rewrite H3. cbn [dirs trace]. rewrite H4. cbn [dirs trace]. rewrite H5.
  unfold events_until_successors. rewrite <- !app_assoc. reflexivity.
Qed.

Ltac go_unfold :=
  unfold Get_deferred, Fetch, RemoveAll, Stream_Close, log_Error, log_Debug,
    bind, emit, ret;
  cbn [dirs trace fst snd].

Lemma events_result {A} (m : M A) wd a ds evs :
  m wd = (a, mkWorld ds (trace wd ++ evs)) ->
  result_of m wd = a /\ events_of m wd = evs /\ dirs (world_of m wd) = ds.
Proof.
  intros H. unfold result_of, events_of, world_of. rewrite H. cbn [fst snd trace dirs].
  now rewrite skipn_trace.
Qed.

(** The deferred function removes the directory exactly when [Get]
    returns nothing. *)
Lemma Get_deferred_events dir rc wd :
  exists ds evs,
    Get_deferred E dir rc wd = (tt, mkWorld ds (trace wd ++ evs))
    /\ fetches evs = []
    /\ removals evs = match rc with None => [dir] | Some _ => [] end.
Proof.
  destruct rc as [h|]; go_unfold.
  - exists (dirs wd), []. rewrite app_nil_r. destruct wd; now repeat split.
  - eexists _, [_; _]. rewrite <- app_assoc. repeat split.
Qed.

(** [Get]'s loop stops at the first image layer. *)
Lemma scan_nodes_find name dir store nodes : forall wd,
  scan_nodes E name dir store nodes wd =
  match List.find is_layer nodes with
  | Some node =>
      match store_Fetch E store node with
      | Ok s =>
          (Some (Some (OrasReadCloser (mkOrasReadCloser dir s))),
           mkWorld (dirs wd) (trace wd ++ [CallFetch store node]))
      | Err e =>
          (Some None,
           mkWorld (dirs wd)
                   (trace wd ++
                      [CallFetch store node;
                       Log ErrorLevel "oras: fetch layer content failed"
                           [("repo", name); ("error", e)]]))
      end
  | None => (None, wd)
  end.
Proof.
  induction nodes as [|node nodes IH]; intros wd; [reflexivity|].
  cbn [scan_nodes List.find]. unfold is_layer at 1.
  destruct (String.eqb (MediaType node) MediaTypeImageLayer); [|apply IH].
  go_unfold. destruct (store_Fetch E store node); cbn [dirs trace].
  - reflexivity.
  - rewrite <- app_assoc. reflexivity.
Qed.

(** C2: when the root of the copied graph has exactly one successor,
    [Get] fetches that node, whatever its media type, and returns the
    stream the file store gives for it (nothing when the store fails). *)
Theorem Get_single_successor op artifact wd src dir store root node :
  copied E op artifact wd src dir store root [node] ->
  fetches (events_of (Get E op artifact) wd) = [node]
  /\ result_of (Get E op artifact) wd =
     match store_Fetch E store node with
     | Ok s => Some (FileStream s)
     | Err _ => None
     end.
Proof.
  intros H. 
  assert (HG : exists ds evs,
    Get E op artifact wd =
    (match store_Fetch E store node with
     | Ok s => Some (FileStream s)
     | Err _ => None
     end, mkWorld ds (trace wd ++ evs)) /\ fetches evs = [node]).
  { rewrite (Get_copied _ _ _ _ _ _ _ _ H).
    unfold Get_select. cbn [List.length Nat.eqb]. go_unfold.
    destruct (store_Fetch E store node) as [s|e]; cbn [dirs trace].
    - eexists _, _. rewrite <- app_assoc. split; [reflexivity|].
      rewrite fetches_app. reflexivity.
    - eexists _, _. rewrite <- !app_assoc. split; [reflexivity|].
      rewrite fetches_app. reflexivity. }
  destruct HG as (ds & evs & HG & Hf).
  destruct (events_result _ _ _ _ _ HG) as (H1 & H2 & _).
  rewrite H1, H2. now split.
Qed.

(** [List.find] returns the first element that passes the test. *)
Lemma find_first {A} (f : A -> bool) (l : list A) :
  match List.find f l with
  | Some x => exists pre post, l = pre ++ x :: post /\ f x = true
                               /\ forall y, In y pre -> f y = false
  | None => forall y, In y l -> f y = false
  end.
Proof.
  induction l as [|a l IH]; cbn [List.find]; [intros y []|].
  destruct (f a) eqn:Ha.
  - exists [], l. repeat split; [assumption|intros y []].
  - destruct (List.find f l) as [x|].
    + destruct IH as (pre & post & -> & Hx & Hpre).
      exists (a :: pre), post. repeat split; [assumption|].
      intros y [<- | Hy]; [assumption|now apply Hpre].
    + intros y [<- | Hy]; [assumption|now apply IH].
  Qed.

(** With more than one successor, [Get] fetches what [List.find] finds. *)
Lemma Get_many_successors_find op artifact wd src dir store root nodes :
  copied E op artifact wd src dir store root nodes ->
  1 < List.length nodes ->
  (* what is fetched, and what Get returns *)
  fetches (events_of (Get E op artifact) wd) =
    match List.find is_layer nodes with
    | Some node => [node]
    | None => []
    end
  /\ result_of (Get E op artifact) wd =
     match List.find is_layer nodes with
     | Some node =>
         match store_Fetch E store node with
         | Ok s => Some (OrasReadCloser (mkOrasReadCloser dir s))
         | Err _ => None
         end
     | None => None
     end
  (* the node found is the first image layer in the order of [nodes] *)
  /\ match List.find is_layer nodes with
     | Some node =>
         exists pre post,
           nodes = pre ++ node :: post
           /\ MediaType node = MediaTypeImageLayer
           /\ forall n, In n pre -> MediaType n <> MediaTypeImageLayer
     | None => forall n, In n nodes -> MediaType n <> MediaTypeImageLayer
     end.
Proof.
  intros H Hlen.
  assert (HG : exists ds evs,
    Get E op artifact wd =
    (match List.find is_layer nodes with
     | Some node =>
         match store_Fetch E store node with
         | Ok s => Some (OrasReadCloser (mkOrasReadCloser dir s))
         | Err _ => None
         end
     | None => None
     end, mkWorld ds (trace wd ++ evs))
    /\ fetches evs = match List.find is_layer nodes with
                     | Some node => [node]
                     | None => []
                     end).
  { rewrite (Get_copied _ _ _ _ _ _ _ _ H).
    unfold Get_select.
    assert (Hne : (List.length nodes =? 1) = false) by (apply Nat.eqb_neq; lia).
    rewrite Hne. unfold bind at 1 2. rewrite scan_nodes_find.
    destruct (List.find is_layer nodes) as [node|].
    - destruct (store_Fetch E store node) as [s|e]; go_unfold.
      + eexists _, _. rewrite <- app_assoc. split; [reflexivity|].
        rewrite fetches_app. reflexivity.
      + eexists _, _. rewrite <- !app_assoc. split; [reflexivity|].
        rewrite fetches_app. reflexivity.
    - go_unfold. eexists _, _. rewrite <- !app_assoc. split; [reflexivity|].
      rewrite fetches_app. reflexivity. }
  destruct HG as (ds & evs & HG & Hf).
  destruct (events_result _ _ _ _ _ HG) as (H1 & H2 & _).
  rewrite H1, H2. split; [exact Hf|]. split; [reflexivity|].
  pose proof (find_first is_layer nodes) as Hfind.
  destruct (List.find is_layer nodes) as [node|].
  - destruct Hfind as (pre & post & Hn & Hx & Hpre).
    exists pre, post. repeat split; [assumption|now apply String.eqb_eq|].
    intros n Hin. apply String.eqb_neq, (Hpre n Hin).
  - intros n Hin. apply String.eqb_neq, (Hfind n Hin).
Qed.

End GetFacts.

(** C3: when the root of the copied graph has more than one successor,
    [Get] fetches the first successor, in the order of the list, whose
    media type is the image layer media type, and returns its stream; when
    no successor has that media type it fetches nothing and returns
    nothing.  The node depends on the list of successors alone. *)
Theorem Get_many_successors E op artifact wd src dir store root nodes :
  copied E op artifact wd src dir store root nodes ->
  1 < List.length nodes ->
  (* what is fetched, and what Get returns *)
  fetches (events_of (Get E op artifact) wd) =
    match List.find is_layer nodes with
    | Some node => [node]
    | None => []
    end
  /\ result_of (Get E op artifact) wd =
     match List.find is_layer nodes with
     | Some node =>
         match store_Fetch E store node with
         | Ok s => Some (OrasReadCloser (mkOrasReadCloser dir s))
         | Err _ => None
         end
     | None => None
     end
  (* the node found is the first image layer in the order of [nodes] *)
  /\ match List.find is_layer nodes with
     | Some node =>
         exists pre post,
           nodes = pre ++ node :: post
           /\ MediaType node = MediaTypeImageLayer
           /\ forall n, In n pre -> MediaType n <> MediaTypeImageLayer
     | None => forall n, In n nodes -> MediaType n <> MediaTypeImageLayer
     end
  (* any other call of Get that finds the same successors fetches the same *)
  /\ (forall E' op' artifact' wd' src' dir' store' root',
        copied E' op' artifact' wd' src' dir' store' root' nodes ->
        fetches (events_of (Get E' op' artifact') wd') =
        fetches (events_of (Get E op artifact) wd)).
Proof.
  intros H Hlen.
  destruct (Get_many_successors_find E _ _ _ _ _ _ _ _ H Hlen) as (H1 & H2 & H3).
  repeat split; try assumption.
  intros E' op' artifact' wd' src' dir' store' root' H'.
  destruct (Get_many_successors_find E' _ _ _ _ _ _ _ _ H' Hlen) as (H1' & _).
  now rewrite H1, H1'.
Qed.

(** C3 (witness): a config, then two layers. *)
Lemma Get_many_successors_witness :
  let E := Example.env [Example.config; Example.layer; Example.layer2] false in
  fetches (events_of (Get E Example.provider "foo") Example.world0)
  = [Example.layer]
  /\ result_of (Get E Example.provider "foo") Example.world0
     = Some (OrasReadCloser
               (mkOrasReadCloser Example.tmp (mkStream Example.layer false))).
Proof.
  cbv zeta.
  destruct (Get_many_successors
              (Example.env [Example.config; Example.layer; Example.layer2] false)
              Example.provider "foo" Example.world0
              (mkRepository "registry.local" "hh/foo") Example.tmp
              (mkFileStore Example.tmp) Example.manifest
              [Example.config; Example.layer; Example.layer2])
    as (H1 & H2 & _).
  - repeat split.
  - cbn. lia.
  - rewrite H1, H2. split; reflexivity.
Defined.

(** C2 (witness): one successor that is no image layer. *)
Lemma Get_single_successor_witness :
  let E := Example.env [Example.blob] false in
  fetches (events_of (Get E Example.provider "foo") Example.world0)
  = [Example.blob]
  /\ result_of (Get E Example.provider "foo") Example.world0
     = Some (FileStream (mkStream Example.blob false)).
Proof.
  cbv zeta.
  destruct (Get_single_successor
              (Example.env [Example.blob] false)
              Example.provider "foo" Example.world0
              (mkRepository "registry.local" "hh/foo") Example.tmp
              (mkFileStore Example.tmp) Example.manifest Example.blob)
    as (H1 & H2).
  - repeat split.
  - rewrite H1, H2. split; reflexivity.
Defined.

(** C9 (witness): an artifact name that gives the repository name
    [.hidden]. *)
Lemma Get_rejects_malformed_name_witness :
  let E := Example.env [Example.layer] false in
  Get E Example.provider "../.hidden" Example.world0 =
  (None,
   mkWorld []
           [CallRepository ".hidden";
            Log ErrorLevel "oras: getting repository reference failed"
                [("repo", ".hidden");
                 ("error", "invalid reference: invalid repository")]]).
Proof.
  cbv zeta.
  destruct (Get_rejects_malformed_name
              (Example.env [Example.layer] false) Example.provider
              "../.hidden" Example.world0
              "invalid reference: invalid repository") as (H & _).
  - reflexivity.
  - rewrite H. reflexivity.
Defined.

(** ** Close *)



Lemma remove_dir_absent d ds : dir_exists d ds = false -> remove_dir d ds = ds.
Proof.
  unfold dir_exists, remove_dir. induction ds as [|x ds IH]; [reflexivity|].
  cbn [List.existsb List.filter]. intros H. apply orb_false_iff in H as [H1 H2].
  rewrite String.eqb_sym, H1. cbn [negb]. now rewrite IH.
Qed.

Lemma not_removal_failure_logged ev1 ev2 dir err :
  (forall d e, ev1 <> CallRemoveAll d e) ->
  (forall d e, ev2 <> CallRemoveAll d e) ->
  ~ removal_failure_logged [ev1; ev2; CallRemoveAll dir err].
Proof.
  intros H1 H2 (pre & d & e & post & lvl & msg & fields & Heq & Hin).
  destruct pre as [|a [|b [|c pre]]]; cbn in Heq.
  - injection Heq as Heq _. now apply (H1 d (Some e)).
  - injection Heq as _ Heq _. now apply (H2 d (Some e)).
  - injection Heq as _ _ _ _ <-. destruct Hin.
  - injection Heq as _ _ _ Heq. destruct pre; discriminate Heq.
Qed.

Lemma orasReadCloser_Close_eq E orc wd :
  orasReadCloser_Close E orc wd =
  ((stream_Close_err E (rc orc),
    mkOrasReadCloser (fileStorePath orc) (close_stream (rc orc))),
   mkWorld (after_removal E (fileStorePath orc) (dirs wd))
           (trace wd ++ close_events E orc (dirs wd))).
Proof.
  unfold orasReadCloser_Close, Stream_Close, RemoveAll, log_Debug, bind, emit,
    ret, close_events, after_removal, removal_error.
  cbn [dirs trace fst snd]. rewrite <- !app_assoc. reflexivity.
Qed.


(** C5 (amended): [Close] of an [orasReadCloser] first closes the
    underlying stream and returns exactly its error; it then logs a debug
    line and calls [os.RemoveAll] on the directory.  The error of the
    removal is dropped: it is not returned, and nothing is logged after
    it. *)
Theorem orasReadCloser_Close_returns_stream_error E orc wd :
  let err := stream_Close_err E (rc orc) in
  let rmerr := if dir_exists (fileStorePath orc) (dirs wd)
               then os_RemoveAll_err E (fileStorePath orc) else None in
  result_of (orasReadCloser_Close E orc) wd
  = (err, mkOrasReadCloser (fileStorePath orc) (close_stream (rc orc)))
  /\ events_of (orasReadCloser_Close E orc) wd
     = [StreamClose (rc orc) err;
        Log DebugLevel
            "oras: ReadCloser: cleaning up temporary file store path on Close"
            [("fileStorePath", fileStorePath orc)];
        CallRemoveAll (fileStorePath orc) rmerr]
  /\ ~ removal_failure_logged (events_of (orasReadCloser_Close E orc) wd).
Proof.
  cbv zeta.
  assert (H : exists ds, orasReadCloser_Close E orc wd =
    ((stream_Close_err E (rc orc),
      mkOrasReadCloser (fileStorePath orc) (close_stream (rc orc))),
     mkWorld ds
       (trace wd ++
        [StreamClose (rc orc) (stream_Close_err E (rc orc));
        Log DebugLevel
            "oras: ReadCloser: cleaning up temporary file store path on Close"
            [("fileStorePath", fileStorePath orc)];
        CallRemoveAll (fileStorePath orc)
          (if dir_exists (fileStorePath orc) (dirs wd)
           then os_RemoveAll_err E (fileStorePath orc) else None)]))).
  { unfold orasReadCloser_Close, Stream_Close, RemoveAll, log_Debug, bind, emit, ret.
    cbn [dirs trace fst snd]. eexists. rewrite <- !app_assoc. reflexivity. }
  destruct H as (ds & H).
  destruct (events_result _ _ _ _ _ H) as (H1 & H2 & _).
  rewrite H1, H2. repeat split.
  apply not_removal_failure_logged; discriminate.
Qed.

(** C5 (counterexample): [Close] of the handle [Get] returned, in a world
    where the directory cannot be removed: the removal fails, [Close]
    returns no error, and the failure is not logged. *)
Lemma Close_removal_failure_is_not_logged :
  let E := Example.env [Example.config; Example.layer] true in
  let h := OrasReadCloser
             (mkOrasReadCloser Example.tmp (mkStream Example.layer false)) in
  let wd := world_of (Get E Example.provider "foo") Example.world0 in
  result_of (Get E Example.provider "foo") Example.world0 = Some h
  /\ result_of (Close E h) wd
     = (None, OrasReadCloser
                (mkOrasReadCloser Example.tmp (mkStream Example.layer true)))
  /\ events_of (Close E h) wd
     = [StreamClose (mkStream Example.layer false) None;
        Log DebugLevel
            "oras: ReadCloser: cleaning up temporary file store path on Close"
            [("fileStorePath", Example.tmp)];
        CallRemoveAll Example.tmp (Some "unlinkat: permission denied")]
  /\ ~ removal_failure_logged (events_of (Close E h) wd).
Proof.
  cbv zeta. split; [reflexivity|]. split; [reflexivity|].
  assert (H : events_of
    (Close (Example.env [Example.config; Example.layer] true)
       (OrasReadCloser
          (mkOrasReadCloser Example.tmp (mkStream Example.layer false))))
    (world_of
       (Get (Example.env [Example.config; Example.layer] true)
          Example.provider "foo") Example.world0) =
  [StreamClose (mkStream Example.layer false) None;
        Log DebugLevel
            "oras: ReadCloser: cleaning up temporary file store path on Close"
            [("fileStorePath", Example.tmp)];
        CallRemoveAll Example.tmp (Some "unlinkat: permission denied")])
    by reflexivity.
  rewrite H. split; [reflexivity|].
  apply not_removal_failure_logged; discriminate.
Qed.




(** ** The temporary file store *)

Lemma removals_app evs1 evs2 :
  removals (evs1 ++ evs2) = removals evs1 ++ removals evs2.
Proof.
  induction evs1 as [|ev evs1 IH]; [reflexivity|].
  destruct ev; cbn; rewrite ?IH; reflexivity.
Qed.

Ltac go_all :=
  unfold Repository_of, MkdirTemp, file_New_at, Copy, Successors, Fetch,
    RemoveAll, Stream_Close, log_Error, log_Debug, bind, emit, ret;
  cbn [dirs trace fst snd].

(** [Get_select] removes nothing, and a wrapper it returns holds [dir]. *)
Lemma Get_select_events E name dir store nodes wd :
  exists r evs,
    Get_select E name dir store nodes wd
    = (r, mkWorld (dirs wd) (trace wd ++ evs))
    /\ removals evs = []
    /\ forall orc, r = Some (OrasReadCloser orc) -> fileStorePath orc = dir.
Proof.
  unfold Get_select.
  destruct (List.length nodes =? 1).
  - destruct nodes as [|node nodes]; go_all.
    + exists None, []. rewrite app_nil_r. destruct wd. now repeat split.
    + destruct (store_Fetch E store node) as [s|e]; cbn [dirs trace fst snd].
      * eexists _, _. repeat split. discriminate.
      * eexists _, _. rewrite <- app_assoc. repeat split. discriminate.
  - unfold bind. rewrite scan_nodes_find.
    destruct (List.find is_layer nodes) as [node|].
    + destruct (store_Fetch E store node) as [s|e]; go_all.
      * eexists _, _. repeat split. now intros orc [= <-].
      * eexists _, _. repeat split. discriminate.
    + go_all. eexists _, _. repeat split. discriminate.
Qed.

Lemma Get_in_dir_events E name dir src wd :
  exists r evs,
    Get_in_dir E name dir src wd = (r, mkWorld (dirs wd) (trace wd ++ evs))
    /\ removals evs = []
    /\ forall orc, r = Some (OrasReadCloser orc) -> fileStorePath orc = dir.
Proof.
  unfold Get_in_dir. go_all.
  destruct (file_New E dir) as [store|e]; cbn [dirs trace fst snd].
  2:{ eexists _, _. rewrite <- app_assoc. repeat split. discriminate. }
  destruct (oras_Copy E src "latest" store "latest") as [root|e];
    cbn [dirs trace fst snd].
  2:{ eexists _, _. rewrite <- !app_assoc. repeat split. discriminate. }
  destruct (content_Successors E store root) as [nodes|e];
    cbn [dirs trace fst snd].
  2:{ eexists _, _. rewrite <- !app_assoc. repeat split. discriminate. }
  match goal with
  | |- context [Get_select E name dir store nodes ?wd'] =>
      destruct (Get_select_events E name dir store nodes wd')
        as (r & evs & Heq & Hrm & Horc)
  end.
  rewrite Heq. cbn [dirs trace]. rewrite <- !app_assoc.
  eexists _, _. split; [reflexivity|]. split; [|exact Horc].
  cbn [removals List.app]. exact Hrm.
Qed.

(** The temporary directory on every path of [Get]: removed by [Get] when
    it returns nothing, and held by the wrapper when it returns one. *)
Lemma Get_removals E op artifact wd src dir :
  registry_Repository E (registry op) (repoName_of op artifact) = Ok src ->
  os_MkdirTemp E (dirs wd) (fileStoreBasePath op)
               "oras-provider-file-store-*" = Ok dir ->
  removals (events_of (Get E op artifact) wd)
  = match result_of (Get E op artifact) wd with
    | None => [dir]
    | Some _ => []
    end
  /\ forall orc,
      result_of (Get E op artifact) wd = Some (OrasReadCloser orc) ->
      fileStorePath orc = dir.
Proof.
  intros H1 H2.
  assert (H : exists r ds evs,
    Get E op artifact wd = (r, mkWorld ds (trace wd ++ evs))
    /\ removals evs = match r with None => [dir] | Some _ => [] end
    /\ forall orc, r = Some (OrasReadCloser orc) -> fileStorePath orc = dir).
  { unfold Get. unfold Repository_of, MkdirTemp, bind, emit, ret.
    cbn [dirs trace fst snd]. rewrite H1. cbn [dirs trace]. rewrite H2.
    cbn [dirs trace].
    match goal with
    | |- context [Get_in_dir E ?name dir src ?wd'] =>
        destruct (Get_in_dir_events E name dir src wd')
          as (r & evs & Heq & Hrm & Horc)
    end.
    rewrite Heq. cbn [dirs trace].
    match goal with
    | |- context [Get_deferred E dir r ?wd'] =>
        destruct (Get_deferred_events E dir r wd')
          as (ds' & evs' & Heq' & _ & Hrm')
    end.
    rewrite Heq'. cbn [dirs trace]. rewrite <- !app_assoc.
    eexists _, _, _. split; [reflexivity|]. split; [|exact Horc].
    cbn [removals List.app]. rewrite removals_app, Hrm, Hrm'. reflexivity. }
  destruct H as (r & ds & evs & HG & Hr & Ho).
  destruct (events_result _ _ _ _ _ HG) as (E1 & E2 & _).
  rewrite E1, E2. split; assumption.
Qed.

(** C1 (the code at the failing input): the tag has one successor.
    [Get] returns the stream of the file store as it is; the temporary
    directory exists when [Get] returns, neither [Get] nor [Close] of the
    returned handle calls [os.RemoveAll], and the directory is still there
    after [Close]. *)
Theorem Get_single_successor_keeps_store :
  let E := Example.env [Example.layer] false in
  let h := FileStream (mkStream Example.layer false) in
  let wd := world_of (Get E Example.provider "foo") Example.world0 in
  result_of (Get E Example.provider "foo") Example.world0 = Some h
  /\ dirs wd = [Example.tmp]
  /\ removals (events_of (Get E Example.provider "foo") Example.world0) = []
  /\ removals (events_of (Close E h) wd) = []
  /\ dirs (world_of (Close E h) wd) = [Example.tmp].
Proof. cbv zeta. repeat split. Qed.

(** [Close] of a stream of the file store removes no directory. *)
Lemma FileStream_Close_keeps_store E s wd :
  removals (events_of (Close E (FileStream s)) wd) = []
  /\ dirs (world_of (Close E (FileStream s)) wd) = dirs wd.
Proof.
  unfold events_of, world_of, Close. go_all. rewrite skipn_trace. now split.
Qed.

(** [Close] of an [orasReadCloser] calls [os.RemoveAll] on its directory
    once. *)
Lemma OrasReadCloser_Close_removes_store E orc wd :
  removals (events_of (Close E (OrasReadCloser orc)) wd) = [fileStorePath orc].
Proof.
  unfold events_of, Close, bind, ret. rewrite orasReadCloser_Close_eq.
  cbn [snd trace]. rewrite skipn_trace. reflexivity.
Qed.

(** * Further properties *)

(** ** Every path of [Get] *)

Lemma error_logs_app evs1 evs2 :
  error_logs (evs1 ++ evs2) = error_logs evs1 ++ error_logs evs2.
Proof.
  induction evs1 as [|ev evs1 IH]; [reflexivity|].
  destruct ev as [[] ? ?| | | | | | | |]; cbn; rewrite ?IH; reflexivity.
Qed.

Lemma copies_app evs1 evs2 :
  copies (evs1 ++ evs2) = copies evs1 ++ copies evs2.
Proof.
  induction evs1 as [|ev evs1 IH]; [reflexivity|].
  destruct ev; cbn; rewrite ?IH; reflexivity.
Qed.

Ltac outcome_done :=
  rewrite <- ?app_assoc; eexists _, _; split; [reflexivity|];
  cbn; repeat split; try lia; try discriminate.

Lemma Get_select_outcome E name dir store nodes wd :
  exists r evs,
    Get_select E name dir store nodes wd
    = (r, mkWorld (dirs wd) (trace wd ++ evs))
    /\ copies evs = []
    /\ quiet_outcome E dir r evs.
Proof.
  unfold Get_select, quiet_outcome.
  destruct nodes as [|node [|node2 nodes]].
  - cbn [List.length Nat.eqb scan_nodes]. go_all. outcome_done.
  - cbn [List.length Nat.eqb]. go_all.
    destruct (store_Fetch E store node) as [s|e] eqn:Hf; cbn [dirs trace fst snd].
    + outcome_done.
      intros h [= <-]. exists store, node, s. repeat split; try assumption.
      discriminate.
    + outcome_done.
  - cbn [List.length Nat.eqb]. unfold bind. rewrite scan_nodes_find.
    destruct (List.find is_layer (node :: node2 :: nodes)) as [n|].
    + destruct (store_Fetch E store n) as [s|e] eqn:Hf; go_all.
      * outcome_done.
        intros h [= <-]. exists store, n, s. repeat split; try assumption.
        now intros orc [= <-].
      * outcome_done.
    + go_all. outcome_done.
Qed.

Lemma quiet_outcome_after E dir r pre evs :
  removals pre = [] -> error_logs pre = [] -> fetches pre = [] ->
  List.length (copies pre) + List.length (copies evs) <= 1 ->
  quiet_outcome E dir r evs -> quiet_outcome E dir r (pre ++ evs).
Proof.
  intros H1 H2 H3 H4 (Q1 & Q2 & Q3 & Q4 & Q5). unfold quiet_outcome.
  rewrite removals_app, error_logs_app, copies_app, fetches_app, H1, H2, H3,
    !length_app.
  cbn [List.app List.length Nat.add]. repeat split; try assumption; try lia.
Qed.

Lemma Get_in_dir_outcome E name dir src wd :
  exists r evs,
    Get_in_dir E name dir src wd = (r, mkWorld (dirs wd) (trace wd ++ evs))
    /\ quiet_outcome E dir r evs.
Proof.
  unfold Get_in_dir. go_all.
  destruct (file_New E dir) as [store|e]; cbn [dirs trace fst snd].
  2:{ unfold quiet_outcome. outcome_done. }
  destruct (oras_Copy E src "latest" store "latest") as [root|e];
    cbn [dirs trace fst snd].
  2:{ unfold quiet_outcome. outcome_done. }
  destruct (content_Successors E store root) as [nodes|e];
    cbn [dirs trace fst snd].
  2:{ unfold quiet_outcome. outcome_done. }
  match goal with
  | |- context [Get_select E name dir store nodes ?wd'] =>
      destruct (Get_select_outcome E name dir store nodes wd')
        as (r & evs & Heq & Hc & Hq)
  end.
  rewrite Heq. cbn [dirs trace]. rewrite <- !app_assoc.
  eexists _, _. split; [reflexivity|].
  apply (quiet_outcome_after E dir r [_; _; _] evs); try reflexivity; [|assumption].
  rewrite Hc. cbn. lia.
Qed.

(** [Get], by the call that fails first. *)
Lemma Get_cases E op artifact wd :
  match registry_Repository E (registry op) (repoName_of op artifact) with
  | Err e =>
      Get E op artifact wd =
      (None,
       mkWorld (dirs wd)
               (trace wd ++
                  [CallRepository (repoName_of op artifact);
                   Log ErrorLevel "oras: getting repository reference failed"
                       [("repo", repoName_of op artifact); ("error", e)]]))
  | Ok src =>
      match os_MkdirTemp E (dirs wd) (fileStoreBasePath op)
                         "oras-provider-file-store-*" with
      | Err e =>
          Get E op artifact wd =
          (None,
           mkWorld (dirs wd)
               (trace wd ++
                  [CallRepository (repoName_of op artifact);
                   CallMkdirTemp (fileStoreBasePath op)
                                 "oras-provider-file-store-*";
                   Log ErrorLevel
                     "oras: failed to create temporary directory for file store"
                     [("repo", repoName_of op artifact); ("error", e)]]))
      | Ok dir =>
          exists r evs,
            quiet_outcome E dir r evs
            /\ Get E op artifact wd =
               (r,
                mkWorld (dirs_after_Get E dir (dirs wd) r)
                  (trace wd ++
                     [CallRepository (repoName_of op artifact);
                      CallMkdirTemp (fileStoreBasePath op)
                                    "oras-provider-file-store-*"]
                     ++ evs ++ deferred_events E dir (dir :: dirs wd) r))
      end
  end.
Proof.
  destruct (registry_Repository E (registry op) (repoName_of op artifact))
    as [src|e] eqn:H1.
  2:{ unfold Get, Repository_of, log_Error, bind, emit, ret. rewrite H1.
      cbn [dirs trace]. rewrite <- app_assoc. reflexivity. }
  destruct (os_MkdirTemp E (dirs wd) (fileStoreBasePath op)
                         "oras-provider-file-store-*") as [dir|e] eqn:H2.
  2:{ unfold Get, Repository_of, MkdirTemp, log_Error, bind, emit, ret.
      rewrite H1. cbn [dirs trace]. rewrite H2. cbn [dirs trace].
      rewrite <- !app_assoc. reflexivity. }
  unfold Get. unfold Repository_of, MkdirTemp, bind, emit, ret.
  cbn [dirs trace fst snd]. rewrite H1. cbn [dirs trace]. rewrite H2.
  cbn [dirs trace].
  match goal with
  | |- context [Get_in_dir E ?name dir src ?wd'] =>
      destruct (Get_in_dir_outcome E name dir src wd')
        as (r & evs & Heq & Hq)
  end.
  rewrite Heq. cbn [dirs trace]. exists r, evs. split; [exact Hq|].
  destruct r as [h|]; unfold Get_deferred, dirs_after_Get, deferred_events,
    after_removal, removal_error; go_all.
  - rewrite app_nil_r, <- !app_assoc. reflexivity.
  - rewrite <- !app_assoc. reflexivity.
Qed.

(** X1: [Get] logs exactly one message at error level when it returns
    nothing, and none when it returns a stream. *)
Theorem Get_logs_error_iff_absent E op artifact wd :
  List.length (error_logs (events_of (Get E op artifact) wd))
  = match result_of (Get E op artifact) wd with
    | None => 1
    | Some _ => 0
    end.
Proof.
  pose proof (Get_cases E op artifact wd) as H.
  destruct (registry_Repository E (registry op) (repoName_of op artifact))
    as [src|e].
  2:{ destruct (events_result _ _ _ _ _ H) as (-> & -> & _). reflexivity. }
  destruct (os_MkdirTemp E (dirs wd) (fileStoreBasePath op)
                         "oras-provider-file-store-*") as [dir|e].
  2:{ destruct (events_result _ _ _ _ _ H) as (-> & -> & _). reflexivity. }
  destruct H as (r & evs & (Q1 & Q2 & Q3 & Q4 & Q5) & H).
  destruct (events_result _ _ _ _ _ H) as (-> & -> & _).
  cbn [List.app error_logs]. rewrite error_logs_app, length_app, Q2.
  destruct r; reflexivity.
Qed.


(** X3: [Get] calls [os.RemoveAll] once, on the directory it created,
    when it created one and returns nothing; on every other path it calls
    it not at all. *)
Theorem Get_removes_its_directory_when_absent E op artifact wd :
  removals (events_of (Get E op artifact) wd)
  = match registry_Repository E (registry op) (repoName_of op artifact),
          os_MkdirTemp E (dirs wd) (fileStoreBasePath op)
                       "oras-provider-file-store-*",
          result_of (Get E op artifact) wd
    with
    | Ok _, Ok dir, None => [dir]
    | _, _, _ => []
    end.
Proof.
  pose proof (Get_cases E op artifact wd) as H.
  destruct (registry_Repository E (registry op) (repoName_of op artifact))
    as [src|e].
  2:{ destruct (events_result _ _ _ _ _ H) as (_ & -> & _). reflexivity. }
  destruct (os_MkdirTemp E (dirs wd) (fileStoreBasePath op)
                         "oras-provider-file-store-*") as [dir|e].
  2:{ destruct (events_result _ _ _ _ _ H) as (_ & -> & _). reflexivity. }
  destruct H as (r & evs & (Q1 & Q2 & Q3 & Q4 & Q5) & H).
  destruct (events_result _ _ _ _ _ H) as (-> & -> & _).
  cbn [List.app removals]. rewrite removals_app, Q1.
  destruct r; reflexivity.
Qed.

Lemma remove_dir_fresh dir ds :
  dir_exists dir ds = false -> remove_dir dir (dir :: ds) = ds.
Proof.
  intros H. unfold remove_dir. cbn [List.filter]. rewrite String.eqb_refl.
  cbn [negb]. apply remove_dir_absent, H.
Qed.

Lemma after_removal_fresh E dir ds :
  dir_exists dir ds = false -> os_RemoveAll_err E dir = None ->
  after_removal E dir (dir :: ds) = ds.
Proof.
  intros H1 H2. unfold after_removal, removal_error, dir_exists.
  cbn [List.existsb]. rewrite String.eqb_refl. cbn [orb]. rewrite H2.
  apply remove_dir_fresh, H1.
Qed.

(** X4: when [Get] returns nothing, the directories are afterwards what
    they were before, provided the directory [os.MkdirTemp] makes is a new
    one and its removal does not fail. *)
Theorem Get_absent_leaves_no_directory E op artifact wd :
  result_of (Get E op artifact) wd = None ->
  (forall dir,
      os_MkdirTemp E (dirs wd) (fileStoreBasePath op)
                   "oras-provider-file-store-*" = Ok dir ->
      dir_exists dir (dirs wd) = false /\ os_RemoveAll_err E dir = None) ->
  dirs (world_of (Get E op artifact) wd) = dirs wd.
Proof.
  intros Hr Hdir.
  pose proof (Get_cases E op artifact wd) as H.
  destruct (registry_Repository E (registry op) (repoName_of op artifact))
    as [src|e].
  2:{ destruct (events_result _ _ _ _ _ H) as (_ & _ & ->). reflexivity. }
  destruct (os_MkdirTemp E (dirs wd) (fileStoreBasePath op)
                         "oras-provider-file-store-*") as [dir|e].
  2:{ destruct (events_result _ _ _ _ _ H) as (_ & _ & ->). reflexivity. }
  destruct H as (r & evs & _ & H).
  destruct (events_result _ _ _ _ _ H) as (Hr' & _ & ->).
  rewrite Hr in Hr'. subst r. destruct (Hdir dir eq_refl) as [H1 H2].
  apply after_removal_fresh; assumption.
Qed.

(** X5: when [Get] returns an [orasReadCloser], its directory is the one
    [Get] created and exists when [Get] returns; after [Close] the
    directories are what they were before [Get], provided the directory is
    a new one and its removal does not fail. *)
Theorem Get_then_Close_leaves_no_directory E op artifact wd orc :
  result_of (Get E op artifact) wd = Some (OrasReadCloser orc) ->
  (forall dir,
      os_MkdirTemp E (dirs wd) (fileStoreBasePath op)
                   "oras-provider-file-store-*" = Ok dir ->
      dir_exists dir (dirs wd) = false /\ os_RemoveAll_err E dir = None) ->
  dirs (world_of (Get E op artifact) wd) = fileStorePath orc :: dirs wd
  /\ dirs (world_of (Close E (OrasReadCloser orc))
                    (world_of (Get E op artifact) wd)) = dirs wd.
Proof.
  intros Hr Hdir.
  pose proof (Get_cases E op artifact wd) as H.
  destruct (registry_Repository E (registry op) (repoName_of op artifact))
    as [src|e].
  2:{ destruct (events_result _ _ _ _ _ H) as (Hr' & _). congruence. }
  destruct (os_MkdirTemp E (dirs wd) (fileStoreBasePath op)
                         "oras-provider-file-store-*") as [dir|e].
  2:{ destruct (events_result _ _ _ _ _ H) as (Hr' & _). congruence. }
  destruct H as (r & evs & (_ & _ & _ & _ & Q5) & H).
  destruct (events_result _ _ _ _ _ H) as (Hr' & _ & Hd).
  rewrite Hr in Hr'. subst r.
  destruct (Q5 _ eq_refl) as (_ & _ & _ & _ & _ & _ & Hp).
  rewrite (Hp orc eq_refl). cbn [dirs_after_Get] in Hd.
  split; [exact Hd|].
  unfold world_of at 1, Close, bind, ret. rewrite orasReadCloser_Close_eq.
  cbn [snd dirs]. rewrite Hd, (Hp orc eq_refl).
  destruct (Hdir dir eq_refl) as [H1 H2].
  apply after_removal_fresh; assumption.
Qed.

(** *** The paths [Get] and [Close] work on *)

Lemma store_paths_app evs1 evs2 :
  store_paths (evs1 ++ evs2) = store_paths evs1 ++ store_paths evs2.
Proof.
  induction evs1 as [|ev evs1 IH]; [reflexivity|].
  destruct ev; cbn; rewrite ?IH; reflexivity.
Qed.

Lemma mkdirs_app evs1 evs2 :
  mkdirs (evs1 ++ evs2) = mkdirs evs1 ++ mkdirs evs2.
Proof.
  induction evs1 as [|ev evs1 IH]; [reflexivity|].
  destruct ev; cbn; rewrite ?IH; reflexivity.
Qed.

Ltac paths_done :=
  rewrite <- ?app_assoc; eexists _, _; split; [reflexivity|];
  cbn; repeat split; try discriminate.

(** [Get_select] opens no store, removes nothing and makes no directory. *)
Lemma Get_select_paths E name dir store nodes wd :
  exists r evs,
    Get_select E name dir store nodes wd
    = (r, mkWorld (dirs wd) (trace wd ++ evs))
    /\ store_paths evs = []
    /\ mkdirs evs = []
    /\ forall orc, r = Some (OrasReadCloser orc) -> fileStorePath orc = dir.
Proof.
  unfold Get_select.
  destruct nodes as [|node [|node2 nodes]].
  - cbn [List.length Nat.eqb scan_nodes]. go_all. paths_done.
  - cbn [List.length Nat.eqb]. go_all.
    destruct (store_Fetch E store node) as [s|e]; cbn [dirs trace fst snd];
      paths_done.
  - cbn [List.length Nat.eqb]. unfold bind. rewrite scan_nodes_find.
    destruct (List.find is_layer (node :: node2 :: nodes)) as [n|].
    + destruct (store_Fetch E store n) as [s|e]; go_all; paths_done.
      now intros orc [= <-].
    + go_all. paths_done.
Qed.

(** [Get_in_dir] opens the store in [dir] and no other. *)
Lemma Get_in_dir_paths E name dir src wd :
  exists r evs,
    Get_in_dir E name dir src wd = (r, mkWorld (dirs wd) (trace wd ++ evs))
    /\ store_paths evs = [dir]
    /\ mkdirs evs = []
    /\ forall orc, r = Some (OrasReadCloser orc) -> fileStorePath orc = dir.
Proof.
  unfold Get_in_dir. go_all.
  destruct (file_New E dir) as [store|e]; cbn [dirs trace fst snd].
  2:{ paths_done. }
  destruct (oras_Copy E src "latest" store "latest") as [root|e];
    cbn [dirs trace fst snd].
  2:{ paths_done. }
  destruct (content_Successors E store root) as [nodes|e];
    cbn [dirs trace fst snd].
  2:{ paths_done. }
  match goal with
  | |- context [Get_select E name dir store nodes ?wd'] =>
      destruct (Get_select_paths E name dir store nodes wd')
        as (r & evs & Heq & Hp & Hm & Ho)
  end.
  rewrite Heq. cbn [dirs trace]. rewrite <- !app_assoc.
  eexists _, _. split; [reflexivity|].
  cbn [List.app store_paths mkdirs]. rewrite Hp, Hm. now repeat split.
Qed.

(** The deferred function removes [dir] or nothing. *)
Lemma Get_deferred_paths E dir r wd :
  exists ds evs,
    Get_deferred E dir r wd = (tt, mkWorld ds (trace wd ++ evs))
    /\ only_in dir (store_paths evs)
    /\ mkdirs evs = [].
Proof.
  destruct r; unfold Get_deferred; go_all.
  - exists (dirs wd), []. rewrite app_nil_r. destruct wd.
    split; [reflexivity|]. split; [intros d []|reflexivity].
  - rewrite <- ?app_assoc. eexists _, _. split; [reflexivity|].
    cbn. split; [|reflexivity]. intros d [<-|[]]. reflexivity.
Qed.

(** X6: [Get] asks [os.MkdirTemp] for at most one directory, below the
    base path of the provider; every path it hands to [file.New] or to
    [os.RemoveAll] is the directory [os.MkdirTemp] returned, and so is
    every path that [Close] of the handle it returns hands to
    [os.RemoveAll]. *)
Theorem Get_works_in_its_directory E op artifact wd :
  let made := os_MkdirTemp E (dirs wd) (fileStoreBasePath op)
                           "oras-provider-file-store-*" in
  (* at most one directory is asked for, below the base path *)
  (mkdirs (events_of (Get E op artifact) wd) = []
   \/ mkdirs (events_of (Get E op artifact) wd)
      = [(fileStoreBasePath op, "oras-provider-file-store-*")])
  (* the store Get opens and the tree it removes are that directory *)
  /\ (forall d,
        In d (store_paths (events_of (Get E op artifact) wd)) ->
        made = Ok d)
  (* and so is the tree that Close of the returned handle removes *)
  /\ (forall h wd' d,
        result_of (Get E op artifact) wd = Some h ->
        In d (store_paths (events_of (Close E h) wd')) ->
        made = Ok d).
Proof.
  cbv zeta.
  assert (H : exists r ds evs,
    Get E op artifact wd = (r, mkWorld ds (trace wd ++ evs))
    /\ (mkdirs evs = []
        \/ mkdirs evs = [(fileStoreBasePath op, "oras-provider-file-store-*")])
    /\ (forall d, In d (store_paths evs) ->
          os_MkdirTemp E (dirs wd) (fileStoreBasePath op)
                       "oras-provider-file-store-*" = Ok d)
    /\ (forall orc, r = Some (OrasReadCloser orc) ->
          os_MkdirTemp E (dirs wd) (fileStoreBasePath op)
                       "oras-provider-file-store-*" = Ok (fileStorePath orc))).
  { unfold Get. unfold Repository_of, MkdirTemp, log_Error, bind, emit, ret.
    cbn [dirs trace fst snd].
    destruct (registry_Repository E (registry op) (repoName_of op artifact))
      as [src|e]; cbn [dirs trace].
    2:{ rewrite <- ?app_assoc. eexists _, _, _. split; [reflexivity|].
        cbn. repeat split; try discriminate; [now left|intros d []]. }
    destruct (os_MkdirTemp E (dirs wd) (fileStoreBasePath op)
                           "oras-provider-file-store-*") as [dir|e];
      cbn [dirs trace].
    2:{ rewrite <- ?app_assoc. eexists _, _, _. split; [reflexivity|].
        cbn. repeat split; try discriminate; [now right|intros d []]. }
    match goal with
    | |- context [Get_in_dir E ?name dir src ?wd'] =>
        destruct (Get_in_dir_paths E name dir src wd')
          as (r & evs & Heq & Hp & Hm & Ho)
    end.
    rewrite Heq. cbn [dirs trace].
    match goal with
    | |- context [Get_deferred E dir r ?wd'] =>
        destruct (Get_deferred_paths E dir r wd')
          as (ds' & evs' & Heq' & Hp' & Hm')
    end.
    rewrite Heq'. cbn [dirs trace]. rewrite <- !app_assoc.
    eexists _, _, _. split; [reflexivity|].
    cbn [List.app store_paths mkdirs].
    rewrite store_paths_app, mkdirs_app, Hp, Hm, Hm'. cbn [List.app].
    split; [now right|]. split.
    - intros d [<-|Hd]; [reflexivity|]. now rewrite (Hp' d Hd).
    - intros orc Hr. now rewrite (Ho orc Hr). }
  destruct H as (r & ds & evs & HG & Hm & Hp & Ho).
  destruct (events_result _ _ _ _ _ HG) as (-> & -> & _).
  split; [exact Hm|]. split; [exact Hp|].
  intros h wd' d -> Hin. destruct h as [s|orc].
  - unfold events_of, Close in Hin. revert Hin. go_all.
    rewrite skipn_trace. intros [].
  - unfold events_of, Close, bind, ret in Hin.
    rewrite orasReadCloser_Close_eq in Hin. cbn [snd trace] in Hin.
    rewrite skipn_trace in Hin. destruct Hin as [<-|[]].
    apply Ho. reflexivity.
Qed.

(** X8: when the root of the copied graph has no successor, [Get]
    fetches nothing, logs that the artifact has no image layers, removes
    its directory and returns nothing. *)
Theorem Get_no_successors E op artifact wd src dir store root :
  copied E op artifact wd src dir store root [] ->
  result_of (Get E op artifact) wd = None
  /\ fetches (events_of (Get E op artifact) wd) = []
  /\ error_logs (events_of (Get E op artifact) wd)
     = ["oras: no image layers in artifact"]
  /\ removals (events_of (Get E op artifact) wd) = [dir].
Proof.
  intros H.
  assert (HG : exists ds evs,
    Get E op artifact wd = (None, mkWorld ds (trace wd ++ evs))
    /\ fetches evs = []
    /\ error_logs evs = ["oras: no image layers in artifact"]
    /\ removals evs = [dir]).
  { rewrite (Get_copied E _ _ _ _ _ _ _ _ H).
    unfold Get_select, Get_deferred, events_until_successors.
    cbn [List.length Nat.eqb scan_nodes]. go_all.
    rewrite <- !app_assoc. eexists _, _. split; [reflexivity|].
    repeat split. }
  destruct HG as (ds & evs & HG & H1 & H2 & H3).
  destruct (events_result _ _ _ _ _ HG) as (-> & -> & _).
  now repeat split.
Qed.

(** X9: when [oras.Copy] fails, [Get] logs the error, runs the deferred
    cleanup on its directory and returns nothing; it asks for no
    successors and fetches nothing. *)
Theorem Get_copy_failure E op artifact wd src dir store e :
  registry_Repository E (registry op) (repoName_of op artifact) = Ok src ->
  os_MkdirTemp E (dirs wd) (fileStoreBasePath op)
               "oras-provider-file-store-*" = Ok dir ->
  file_New E dir = Ok store ->
  oras_Copy E src "latest" store "latest" = Err e ->
  Get E op artifact wd =
  (None,
   mkWorld (after_removal E dir (dir :: dirs wd))
     (trace wd ++
        [CallRepository (repoName_of op artifact);
         CallMkdirTemp (fileStoreBasePath op) "oras-provider-file-store-*";
         CallFileNew dir;
         CallCopy src "latest" store "latest";
         Log ErrorLevel "oras: copying artifact into memory failed"
             [("repo", repoName_of op artifact); ("error", e)];
         Log DebugLevel "oras: cleaning up temporary file store path"
             [("fileStorePath", dir)];
         CallRemoveAll dir (removal_error E dir (dir :: dirs wd))])).
Proof.
  intros H1 H2 H3 H4.
  unfold Get, Get_in_dir, Get_deferred, after_removal, removal_error.
  unfold Repository_of, MkdirTemp, file_New_at, Copy, RemoveAll, log_Error,
    log_Debug, bind, emit, ret.
  cbn [dirs trace]. rewrite H1. cbn [dirs trace]. rewrite H2.
  cbn [dirs trace]. rewrite H3. cbn [dirs trace]. rewrite H4.
  cbn [dirs trace fst snd]. rewrite <- !app_assoc. reflexivity.
Qed.

(** X10: when [os.MkdirTemp] fails, [Get] logs the error and returns
    nothing; no file store is opened, nothing is copied, and there is no
    cleanup, as no directory was created. *)
Theorem Get_MkdirTemp_failure E op artifact wd src e :
  registry_Repository E (registry op) (repoName_of op artifact) = Ok src ->
  os_MkdirTemp E (dirs wd) (fileStoreBasePath op)
               "oras-provider-file-store-*" = Err e ->
  Get E op artifact wd =
  (None,
   mkWorld (dirs wd)
     (trace wd ++
        [CallRepository (repoName_of op artifact);
         CallMkdirTemp (fileStoreBasePath op) "oras-provider-file-store-*";
         Log ErrorLevel
             "oras: failed to create temporary directory for file store"
             [("repo", repoName_of op artifact); ("error", e)]])).
Proof.
  intros H1 H2. pose proof (Get_cases E op artifact wd) as H.
  now rewrite H1, H2 in H.
Qed.

(** X11: a provider that [Provider] returns was built from a base path
    that is not empty; it holds the parsed registry URL, whose scheme is
    [oci], and the registry client made for the host of that URL; its
    other fields are as the options left them. *)
Theorem Provider_ok E registryURL base options p :
  Provider E registryURL base options = Ok p ->
  base <> ""
  /\ url_Parse E registryURL = Ok (url p)
  /\ Scheme (url p) = "oci"
  /\ remote_NewRegistry E (Host (url p)) = Ok (registry p)
  /\ p = set_registry
           (set_url (List.fold_left (fun q opt => opt q) options
                                    (initial_provider base))
                    (url p))
           (registry p).
Proof.
  unfold Provider.
  destruct (String.eqb_spec base "") as [Hb|Hb]; [discriminate|].
  destruct (url_Parse E registryURL) as [u|e]; [|discriminate].
  destruct (String.eqb_spec (Scheme u) "oci") as [Hs|Hs]; [|discriminate].
  cbn [negb].
  destruct (remote_NewRegistry E (Host u)) as [reg|e] eqn:Hr; [|discriminate].
  intros [= <-]. cbn. repeat split; assumption.
Qed.

(** ** The properties above at concrete runs *)


(** X4 (witness): the copy fails while the directory of another fetch
    exists. *)
Lemma Get_absent_leaves_no_directory_witness :
  result_of (Get Failing.copy_fails Example.provider "foo") Failing.world1
  = None
  /\ dirs (world_of (Get Failing.copy_fails Example.provider "foo")
                    Failing.world1) = [Failing.other].
Proof.
  split; [reflexivity|].
  apply (Get_absent_leaves_no_directory Failing.copy_fails Example.provider
                                        "foo" Failing.world1).
  - reflexivity.
  - intros dir [= <-]. split; reflexivity.
Defined.

(** X5 (witness): a config and a layer, fetched and closed. *)
Lemma Get_then_Close_leaves_no_directory_witness :
  let E := Example.env [Example.config; Example.layer] false in
  let h := OrasReadCloser
             (mkOrasReadCloser Example.tmp (mkStream Example.layer false)) in
  dirs (world_of (Get E Example.provider "foo") Failing.world1)
  = [Example.tmp; Failing.other]
  /\ dirs (world_of (Close E h)
                    (world_of (Get E Example.provider "foo") Failing.world1))
     = [Failing.other].
Proof.
  cbv zeta.
  apply (Get_then_Close_leaves_no_directory
           (Example.env [Example.config; Example.layer] false)
           Example.provider "foo" Failing.world1
           (mkOrasReadCloser Example.tmp (mkStream Example.layer false))).
  - reflexivity.
  - intros dir [= <-]. split; reflexivity.
Defined.

(** X6 (witness): a fetch that succeeds and is closed, and one that
    fails. *)
Lemma Get_works_in_its_directory_witness :
  let E := Example.env [Example.config; Example.layer] false in
  let h := OrasReadCloser
             (mkOrasReadCloser Example.tmp (mkStream Example.layer false)) in
  store_paths (events_of (Get E Example.provider "foo") Failing.world1)
  = [Example.tmp]
  /\ store_paths (events_of (Get Failing.copy_fails Example.provider "foo")
                            Failing.world1)
     = [Example.tmp; Example.tmp]
  /\ store_paths (events_of (Close E h) Failing.world1) = [Example.tmp]
  /\ os_MkdirTemp E (dirs Failing.world1) "/var/lib/seeder"
                  "oras-provider-file-store-*" = Ok Example.tmp.
Proof.
  cbv zeta.
  destruct (Get_works_in_its_directory
              (Example.env [Example.config; Example.layer] false)
              Example.provider "foo" Failing.world1) as (_ & H2 & H3).
  split; [reflexivity|]. split; [reflexivity|]. split; [reflexivity|].
  apply (H3 (OrasReadCloser
               (mkOrasReadCloser Example.tmp (mkStream Example.layer false)))
            Failing.world1 Example.tmp eq_refl).
  now left.
Defined.

(** X8 (witness): a tag without successors. *)
Lemma Get_no_successors_witness :
  let E := Example.env [] false in
  result_of (Get E Example.provider "foo") Example.world0 = None
  /\ fetches (events_of (Get E Example.provider "foo") Example.world0) = []
  /\ error_logs (events_of (Get E Example.provider "foo") Example.world0)
     = ["oras: no image layers in artifact"]
  /\ removals (events_of (Get E Example.provider "foo") Example.world0)
     = [Example.tmp].
Proof.
  cbv zeta.
  apply (Get_no_successors (Example.env [] false) Example.provider "foo"
           Example.world0 (mkRepository "registry.local" "hh/foo")
           Example.tmp (mkFileStore Example.tmp) Example.manifest).
  repeat split.
Defined.

(** X9 (witness): the registry refuses the copy. *)
Lemma Get_copy_failure_witness :
  Get Failing.copy_fails Example.provider "foo" Example.world0 =
  (None,
   mkWorld []
     [CallRepository "hh/foo";
      CallMkdirTemp "/var/lib/seeder" "oras-provider-file-store-*";
      CallFileNew Example.tmp;
      CallCopy (mkRepository "registry.local" "hh/foo") "latest"
               (mkFileStore Example.tmp) "latest";
      Log ErrorLevel "oras: copying artifact into memory failed"
          [("repo", "hh/foo"); ("error", "unauthorized")];
      Log DebugLevel "oras: cleaning up temporary file store path"
          [("fileStorePath", Example.tmp)];
      CallRemoveAll Example.tmp None]).
Proof.
  rewrite (Get_copy_failure Failing.copy_fails Example.provider "foo"
             Example.world0 (mkRepository "registry.local" "hh/foo")
             Example.tmp (mkFileStore Example.tmp) "unauthorized");
    reflexivity.
Defined.

(** X10 (witness): the disk is full. *)
Lemma Get_MkdirTemp_failure_witness :
  Get Failing.mkdir_fails Example.provider "foo" Failing.world1 =
  (None,
   mkWorld [Failing.other]
     [CallRepository "hh/foo";
      CallMkdirTemp "/var/lib/seeder" "oras-provider-file-store-*";
      Log ErrorLevel
          "oras: failed to create temporary directory for file store"
          [("repo", "hh/foo");
           ("error", "mkdir: no space left on device")]]).
Proof.
  rewrite (Get_MkdirTemp_failure Failing.mkdir_fails Example.provider "foo"
             Failing.world1 (mkRepository "registry.local" "hh/foo")
             "mkdir: no space left on device");
    reflexivity.
Defined.

(** X11 (witness): the provider of the examples, built with a user name
    and a password. *)
Lemma Provider_ok_witness :
  let E := Example.env [] false in
  let options := [Failing.with_basic_auth "seeder" "secret"] in
  Provider E "oci://registry.local/hh" "/var/lib/seeder" options
  = Ok Example.provider
  /\ url_Parse E "oci://registry.local/hh" = Ok (url Example.provider)
  /\ remote_NewRegistry E (Host (url Example.provider))
     = Ok (registry Example.provider).
Proof.
  cbv zeta. split; [reflexivity|].
  destruct (Provider_ok (Example.env [] false) "oci://registry.local/hh"
              "/var/lib/seeder" [Failing.with_basic_auth "seeder" "secret"]
              Example.provider eq_refl) as (_ & H1 & _ & H2 & _).
  split; assumption.
Defined.

(** ** More on the repository name *)

Module CleanFacts.
Import path pathnames PathFacts.

Lemma append_assoc_slash (s1 a s3 : string) :
  (s1 ++ String "/" (a ++ s3))%string = ((s1 ++ String "/" a) ++ s3)%string.
Proof. induction s1 as [|c s1 IH]; cbn; [reflexivity|now rewrite IH]. Qed.

Lemma clean_loop_trailing_slash rooted p out dotdot :
  clean_loop rooted (p ++ "/") out dotdot = clean_loop rooted p out dotdot.
Proof.
  rewrite !clean_loop_run, split_slash_app_slash, run_app.
  cbn [split_slash]. unfold run. cbn [List.fold_left]. now rewrite step_nil.
Qed.

(** [Clean] does not see a trailing slash. *)
Lemma Clean_trailing_slash s : s <> "" -> Clean (s ++ "/") = Clean s.
Proof.
  destruct s as [|c s]; [congruence|]. intros _.
  cbn [String.append]. unfold Clean. cbv zeta.
  destruct (Ascii.eqb c "/").
  - now rewrite clean_loop_trailing_slash.
  - change (String c (s ++ "/")) with (String c s ++ "/")%string.
    now rewrite clean_loop_trailing_slash.
Qed.

(** *** The buffer of a rooted run *)

Lemma split_slash_no_slash p : forall cur,
  ~ In "/"%char cur ->
  Forall (fun e => ~ In "/"%char e) (split_slash p cur).
Proof.
  induction p as [|c p IH]; intros cur Hcur; cbn [split_slash].
  - now constructor.
  - destruct (Ascii.eqb_spec c "/") as [->|Hc].
    + constructor; [assumption|]. apply IH. intros [].
    + apply IH. intros [H|H]; [now apply Hc|now apply Hcur].
Qed.

Lemma render_cons e e1 els :
  render (e :: e1 :: els) = e ++ "/"%char :: render (e1 :: els).
Proof. reflexivity. Qed.

Lemma render_w els : 1 <= w (render els).
Proof.
  destruct els as [|e [|e1 els]]; unfold w; cbn [render];
    rewrite ?length_app; cbn [List.length]; lia.
Qed.

Lemma render_w_cons e els : e <> [] -> 2 <= w (render (e :: els)).
Proof.
  intros He. destruct e as [|c e]; [congruence|].
  destruct els as [|e1 els]; unfold w; cbn [render];
    rewrite ?length_app; cbn [List.length]; lia.
Qed.

(** Backtracking over one element stops at the slash before it. *)
Lemma backtrack_element e : forall rest,
  e <> [] -> ~ In "/"%char e -> 1 <= w rest ->
  backtrack 1 (e ++ rest) = if 1 <? w rest then backtrack 1 rest else rest.
Proof.
  induction e as [|c e IH]; intros rest He Hs Hw; [congruence|].
  cbn [List.app backtrack].
  assert (Hc : Ascii.eqb c "/" = false).
  { apply Ascii.eqb_neq. intros ->. apply Hs. now left. }
  rewrite Hc. cbn [negb]. rewrite andb_true_r.
  destruct e as [|c' e].
  - reflexivity.
  - assert (Hlt : (1 <? w ((c' :: e) ++ rest)) = true).
    { apply Nat.ltb_lt. unfold w in *. rewrite length_app. cbn [List.length]. lia. }
    rewrite Hlt. apply IH; [discriminate| |assumption].
    intros H. apply Hs. now right.
Qed.

Lemma backtrack_render e els :
  real_bytes e -> backtrack 1 (render (e :: els)) = render els.
Proof.
  intros (He & _ & _ & Hs). destruct els as [|e1 els].
  - cbn [render]. rewrite backtrack_element by (try assumption; cbn; lia).
    reflexivity.
  - rewrite render_cons.
    rewrite backtrack_element; [|assumption|assumption|cbn; lia].
    assert (Hlt : (1 <? w ("/"%char :: render (e1 :: els))) = true).
    { apply Nat.ltb_lt. pose proof (render_w (e1 :: els)). unfold w in *.
      cbn [List.length]. lia. }
    rewrite Hlt. cbn [backtrack Ascii.eqb Bool.eqb negb]. rewrite andb_false_r.
    reflexivity.
Qed.

(** One element keeps the buffer of a rooted run a list of real
    elements. *)
Lemma step_render els e :
  Forall real_bytes els -> ~ In "/"%char e ->
  exists els', step true (render els, 1) e = (render els', 1)
               /\ Forall real_bytes els'.
Proof.
  intros Hels Hs. unfold step. destruct e as [|c e].
  { now exists els. }
  destruct (is_dot (c :: e)) eqn:Hdot.
  { now exists els. }
  destruct (is_dotdot (c :: e)) eqn:Hdd.
  - destruct els as [|e1 els].
    + exists []. split; [reflexivity|constructor].
    + inversion Hels as [|? ? He1 Hels']; subst.
      assert (Hlt : (1 <? w (render (e1 :: els))) = true).
      { apply Nat.ltb_lt. apply render_w_cons. apply He1. }
      rewrite Hlt. exists els. split; [|assumption].
      now rewrite backtrack_render.
  - exists ((c :: e) :: els). split.
    + unfold add_slash. cbn [negb andb orb]. rewrite orb_false_r.
      destruct els as [|e1 els].
      * reflexivity.
      * inversion Hels as [|? ? He1 Hels']; subst.
        assert (Hne : (w (render (e1 :: els)) =? 1) = false).
        { apply Nat.eqb_neq. pose proof (render_w_cons e1 els (proj1 He1)). lia. }
        rewrite Hne. reflexivity.
    + constructor; [|assumption]. repeat split; try assumption. discriminate.
Qed.

Lemma run_render es : forall els,
  Forall real_bytes els -> Forall (fun e => ~ In "/"%char e) es ->
  exists els', run true es (render els, 1) = render els'
               /\ Forall real_bytes els'.
Proof.
  induction es as [|e es IH]; intros els Hels Hes.
  - now exists els.
  - inversion Hes as [|? ? He Hes']; subst.
    destruct (step_render els e Hels He) as (els1 & Hstep & Hels1).
    rewrite run_cons, Hstep. now apply IH.
Qed.

(** *** From the buffer to the string *)

Lemma string_of_list_ascii_app l1 l2 :
  string_of_list_ascii (l1 ++ l2)
  = (string_of_list_ascii l1 ++ string_of_list_ascii l2)%string.
Proof. induction l1 as [|c l1 IH]; cbn; [reflexivity|now rewrite IH]. Qed.

Lemma to_string_app e out :
  to_string (e ++ out) = (to_string out ++ element_string e)%string.
Proof.
  unfold to_string, element_string.
  now rewrite rev_app_distr, string_of_list_ascii_app.
Qed.

Lemma append_assoc (s1 s2 s3 : string) :
  ((s1 ++ s2) ++ s3)%string = (s1 ++ s2 ++ s3)%string.
Proof. induction s1 as [|c s1 IH]; cbn; [reflexivity|now rewrite IH]. Qed.

Lemma concat_snoc (l : list string) (x y : string) :
  String.concat "/" ((l ++ [x]) ++ [y])
  = (String.concat "/" (l ++ [x]) ++ "/" ++ y)%string.
Proof.
  induction l as [|z l IH].
  - reflexivity.
  - cbn [List.app]. destruct l as [|z' l].
    + cbn. now rewrite append_assoc.
    + cbn [List.app] in *. cbn [String.concat] in *.
      rewrite IH. now rewrite !append_assoc.
Qed.

Lemma to_string_render els :
  to_string (render els)
  = String "/" (String.concat "/" (List.rev (List.map element_string els))).
Proof.
  induction els as [|e els IH]; [reflexivity|].
  destruct els as [|e1 els].
  - cbn [render List.map List.rev List.app String.concat].
    rewrite to_string_app. reflexivity.
  - rewrite render_cons, to_string_app.
    change ("/"%char :: render (e1 :: els))
      with (["/"%char] ++ render (e1 :: els)).
    rewrite to_string_app, IH.
    cbn [List.map List.rev]. rewrite concat_snoc.
    cbn [String.append]. rewrite append_assoc. reflexivity.
Qed.

Lemma real_bytes_string e : real_bytes e -> real_element (element_string e).
Proof.
  intros (He & Hdot & Hdd & Hs). unfold real_element, element_string.
  assert (Hinj : forall s, string_of_list_ascii (List.rev e) = s ->
                           e = List.rev (list_ascii_of_string s)).
  { intros s <-. now rewrite list_ascii_of_string_of_list_ascii, rev_involutive. }
  repeat split.
  - intros H. apply Hinj in H. cbn in H. congruence.
  - intros H. apply Hinj in H. cbn in H. subst e. discriminate.
  - intros H. apply Hinj in H. cbn in H. subst e. discriminate.
  - intros c Hc ->. apply Hs.
    rewrite list_ascii_of_string_of_list_ascii in Hc. now apply in_rev.
Qed.

Lemma TrimLeft_concat_real els :
  Forall real_element els ->
  strings.TrimLeft (String.concat "/" els) "/" = String.concat "/" els.
Proof.
  intros H. destruct els as [|e els]; [reflexivity|].
  inversion H as [|? ? (He & _ & _ & Hs) _]; subst.
  destruct e as [|c e]; [congruence|].
  assert (Hc : Ascii.eqb c "/" = false).
  { apply Ascii.eqb_neq. apply Hs. now left. }
  destruct els as [|e1 els]; cbn [String.concat String.append strings.TrimLeft
    strings.contains_byte]; now rewrite Hc.
Qed.

(** [Clean] on a rooted path gives the root followed by real elements,
    joined by single slashes. *)
Lemma Clean_rooted p :
  exists els, Clean (String "/" p) = String "/" (String.concat "/" els)
              /\ Forall real_element els.
Proof.
  unfold Clean. cbn [Ascii.eqb Bool.eqb]. cbv zeta. unfold append.
  rewrite clean_loop_run.
  destruct (run_render (split_slash p []) [])
    as (els & Hrun & Hels).
  { constructor. }
  { apply split_slash_no_slash. intros []. }
  cbn [render] in Hrun. rewrite Hrun.
  assert (Hw : (w (render els) =? 0) = false).
  { apply Nat.eqb_neq. pose proof (render_w els). lia. }
  rewrite Hw, to_string_render.
  exists (List.rev (List.map element_string els)). split; [reflexivity|].
  apply Forall_rev. apply Forall_map.
  eapply Forall_impl; [|exact Hels]. apply real_bytes_string.
Qed.

End CleanFacts.

(** X12: the repository name does not change when a slash in the
    artifact name is doubled, nor when a slash is added at its end. *)
Theorem repoName_of_ignores_extra_slashes op a b :
  repoName_of op (a ++ String "/" (String "/" b))
  = repoName_of op (a ++ String "/" b)
  /\ repoName_of op (a ++ "/") = repoName_of op a.
Proof.
  unfold repoName_of. rewrite !PathFacts.Join_prefix_name. split.
  - destruct (Path (url op)) as [|c prefix].
    + rewrite <- (PathFacts.Clean_double_slash a b).
      destruct a; reflexivity.
    + rewrite !CleanFacts.append_assoc_slash.
      now rewrite PathFacts.Clean_double_slash.
  - destruct (Path (url op)) as [|c prefix].
    + destruct a as [|d a]; [reflexivity|].
      cbn [String.append].
      change (String d (a ++ "/")) with (String d a ++ "/")%string.
      now rewrite CleanFacts.Clean_trailing_slash.
    + rewrite CleanFacts.append_assoc_slash.
      rewrite CleanFacts.Clean_trailing_slash; [reflexivity|].
      discriminate.
Qed.

(** X13: when the path of the registry URL starts with a slash, the
    repository name is a list of real path elements joined by single
    slashes: no element is empty, [.] or [..], so the name neither starts
    nor ends with a slash and never climbs above the root. *)
Theorem repoName_of_rooted_prefix op artifact :
  String.prefix "/" (Path (url op)) = true ->
  exists els,
    repoName_of op artifact = String.concat "/" els
    /\ Forall real_element els.
Proof.
  intros Hp. unfold repoName_of. rewrite PathFacts.Join_prefix_name.
  destruct (Path (url op)) as [|c prefix]; [discriminate|].
  cbn [String.prefix] in Hp.
  destruct (ascii_dec "/" c) as [<-|]; [|discriminate].
  cbn [String.append].
  destruct (CleanFacts.Clean_rooted (prefix ++ String "/" artifact))
    as (els & -> & Hels).
  exists els. split; [|assumption].
  rewrite PathFacts.TrimLeft_slash_cons.
  now apply CleanFacts.TrimLeft_concat_real.
Qed.

(** X13 (witness): the prefix [/hh] and a name with [..], [.] and doubled
    slashes. *)
Lemma repoName_of_rooted_prefix_witness :
  repoName_of Example.provider "../x//y/./z/" = "x/y/z"
  /\ exists els,
       repoName_of Example.provider "../x//y/./z/" = String.concat "/" els
       /\ Forall real_element els.
Proof.
  split; [reflexivity|].
  apply (repoName_of_rooted_prefix Example.provider). reflexivity.
Defined.
